(** * CapsWriter-Offline: the tray supervisor of [tray_gui.py]

    A shallow embedding of the process-supervision core of [tray_gui.py]:
    the two stream readers ([read_output], [read_client_output]), the
    readiness check of [MainWindow.append_server_log], [MainWindow.start_client],
    [MainWindow.check_processes], [MainWindow.closeEvent] and
    [start_core_server].

    Python [str] values are sequences of Unicode code points; effects
    (logging, signals, process control) are recorded in a trace, and the
    answers of the operating system are read from a [World] record. *)

From Stdlib Require Import List Bool ZArith NArith Lia String Ascii DecimalString.
Import ListNotations.

Set Implicit Arguments.

(** ** Python strings *)

Module PyStr.

(** A [str] is a list of code points. *)
Definition pystr := list N.

Definition eqb (a b : pystr) : bool :=
  if list_eq_dec N.eq_dec a b then true else false.

(** Decoding of a UTF-8 source literal into code points, so that the
    literals of [tray_gui.py] can be written as they stand. *)
Definition cont (a : ascii) : N := N.land (N_of_ascii a) 63.

Fixpoint utf8 (s : string) : pystr :=
  match s with
  | EmptyString => []
  | String a s1 =>
      let b := N_of_ascii a in
      if (b <? 128)%N then b :: utf8 s1
      else match s1 with
      | String a1 s2 =>
          if (b <? 224)%N then (N.land b 31 * 64 + cont a1)%N :: utf8 s2
          else match s2 with
          | String a2 s3 =>
              if (b <? 240)%N
              then (N.land b 15 * 4096 + cont a1 * 64 + cont a2)%N :: utf8 s3
              else match s3 with
              | String a3 s4 =>
                  (N.land b 7 * 262144 + cont a1 * 4096 + cont a2 * 64 + cont a3)%N
                    :: utf8 s4
              | EmptyString => [b]
              end
          | EmptyString => [b]
          end
      | EmptyString => [b]
      end
  end.

(** [str(n)] for an [int]. *)
Definition str_int (z : Z) : pystr :=
  utf8 (NilZero.string_of_int (Z.to_int z)).

(** [str.isspace] on one code point: the table of CPython's
    [_PyUnicode_IsWhitespace], which [str.strip()] consults. *)
Definition isspace (c : N) : bool :=
  ((9 <=? c) && (c <=? 13) || (28 <=? c) && (c <=? 32)
   || (c =? 133) || (c =? 160) || (c =? 5760)
   || (8192 <=? c) && (c <=? 8202)
   || (c =? 8232) || (c =? 8233) || (c =? 8239) || (c =? 8287)
   || (c =? 12288))%N.

Fixpoint lstrip (s : pystr) : pystr :=
  match s with
  | c :: t => if isspace c then lstrip t else s
  | [] => []
  end.

Definition rstrip (s : pystr) : pystr := rev (lstrip (rev s)).

(** [s.strip()]: whitespace is removed at both ends. *)
Definition strip (s : pystr) : pystr := rstrip (lstrip s).

Fixpoint startswith (s p : pystr) : bool :=
  match p, s with
  | [], _ => true
  | a :: p1, b :: s1 => (a =? b)%N && startswith s1 p1
  | _ :: _, [] => false
  end.

(** [needle in hay]. *)
Fixpoint contains (needle hay : pystr) : bool :=
  startswith hay needle ||
  match hay with
  | [] => false
  | _ :: t => contains needle t
  end.

End PyStr.
Import PyStr.

(** ** Exceptions, processes, events *)

(** The exception classes that reach the handlers of [tray_gui.py]; each
    of them derives from [Exception]. *)
Inductive ExcKind :=
| TimeoutExpired        (* subprocess.TimeoutExpired *)
| PermissionError
| FileNotFoundError
| OSError
| NoSuchProcess         (* psutil *)
| AccessDenied          (* psutil *)
| ZombieProcess         (* psutil *)
| TypeError
| NameError
| AttributeError
| UnicodeDecodeError
| ValueError.

Definition ExcKind_eq_dec (a b : ExcKind) : {a = b} + {a <> b}.
Proof. decide equality. Defined.

(** An exception object: its class and [str(e)]. *)
Record Exc := { kind : ExcKind; text : pystr }.

(** The test an [except K] clause makes of the exception [e]. *)
Definition is_a (K : ExcKind) (e : Exc) : bool :=
  if ExcKind_eq_dec (kind e) K then true else false.

(** What [psutil.Process(pid).terminate()] raises. *)
Inductive PsutilError := PsNoSuchProcess | PsAccessDenied | PsZombieProcess.

Definition ps_exc (e : PsutilError) (msg : pystr) : Exc :=
  {| kind := match e with
             | PsNoSuchProcess => NoSuchProcess
             | PsAccessDenied => AccessDenied
             | PsZombieProcess => ZombieProcess
             end;
     text := msg |}.

(** [server_process] is the primary worker, [client_process] the secondary. *)
Inductive Worker := Server | Client.

Inductive Pipe := Stdout | Stderr.

(** A [subprocess.Popen] object, identified by the pid of its process. *)
Record Popen := { pid : Z }.

Inductive Level := INFO | WARNING | ERROR.

(** The effects a run leaves behind, in program order. *)
Inductive Event :=
| Log (lvl : Level) (msg : pystr)              (* logging.info / warning / error *)
| Emit (w : Worker) (msg : pystr)              (* server_emitter / client_emitter .emit_log *)
| Spawn (w : Worker) (command : pystr)         (* subprocess.Popen([command], ...) is called *)
| StartReader (w : Worker) (p : Popen) (s : Pipe)  (* threading.Thread(target=read_..., ...).start() *)
| Terminate (w : Worker) (p : Popen)           (* p.terminate() *)
| WaitFor (w : Worker) (p : Popen) (timeout : option Z)  (* p.wait(timeout=...) / p.wait() *)
| Kill (w : Worker) (p : Popen)                (* p.kill() *)
| PsTerminate (pid : Z)                        (* psutil.Process(pid).terminate() *)
| StreamClose                                  (* stream.close() *)
| MonitorStop                                  (* self.process_monitor.stop() *)
| EventIgnore                                  (* event.ignore() *)
| Hide                                         (* self.hide() *)
| EventAccept.                                 (* event.accept() *)

(** The answers of the host: file system, process table, process control. *)
Record World := {
  BASE_DIR : pystr;
  getcwd : pystr;
  path_join : pystr -> pystr -> pystr;         (* os.path.join *)
  path_exists : pystr -> bool;                 (* os.path.exists *)
  open_rb : pystr -> option Exc;               (* open(path, 'rb'): None when it succeeds *)
  process_iter : list (Z * pystr);             (* psutil.process_iter(['pid', 'name']) *)
  ps_terminate : Z -> option (PsutilError * pystr);
  popen : nat -> Worker -> pystr -> Exc + Popen;  (* the n-th call of subprocess.Popen *)
  proc_terminate : Popen -> option Exc;
  proc_wait5 : Popen -> option Exc;            (* wait(timeout=5) *)
  proc_kill : Popen -> option Exc;
  proc_poll : Popen -> option Z;               (* None while the process runs *)
  proc_exits : Popen -> bool;                  (* whether wait() without timeout ever returns *)
  format_tb : Exc -> pystr;                    (* traceback.format_tb, joined *)
  format_exception : Exc -> pystr              (* logging.Formatter.formatException *)
}.

(** The attributes of [MainWindow] the supervision code reads and writes,
    with the root logger's handler list reduced to the one question
    [start_client] asks of it. *)
Record State := {
  server_process : option Popen;
  client_process : option Popen;
  server_log : list pystr;                     (* QTextEdit, one entry per append *)
  client_log : list pystr;
  process_monitor : bool;                      (* the QTimer is active *)
  log_handler : bool;                          (* a LogHandler is installed on the root logger *)
  popen_calls : nat                            (* calls of subprocess.Popen so far *)
}.

(** ** The effect monad *)

Inductive Result (A : Type) :=
| Val (a : A)       (* ran to its end *)
| Returned          (* executed a [return] statement *)
| Raised (e : Exc)  (* an exception is propagating *)
| Blocked.          (* waits and never resumes *)
Arguments Returned {A}.
Arguments Raised {A} e.
Arguments Blocked {A}.

Record Run (A : Type) := {
  result : Result A;
  final : State;
  trace : list Event
}.

Definition Py (A : Type) := State -> Run A.

Definition ret {A} (a : A) : Py A :=
  fun s => {| result := Val a; final := s; trace := [] |}.

Definition bind {A B} (m : Py A) (f : A -> Py B) : Py B :=
  fun s =>
    match m s with
    | {| result := Val a; final := s1; trace := t1 |} =>
        match f a s1 with
        | {| result := r; final := s2; trace := t2 |} =>
            {| result := r; final := s2; trace := t1 ++ t2 |}
        end
    | {| result := Returned; final := s1; trace := t1 |} =>
        {| result := Returned; final := s1; trace := t1 |}
    | {| result := Raised e; final := s1; trace := t1 |} =>
        {| result := Raised e; final := s1; trace := t1 |}
    | {| result := Blocked; final := s1; trace := t1 |} =>
        {| result := Blocked; final := s1; trace := t1 |}
    end.

Notation "x <- c1 ;; c2" := (bind c1 (fun x => c2))
  (at level 61, c1 at next level, right associativity).
Notation "c1 ;; c2" := (bind c1 (fun _ => c2))
  (at level 61, right associativity).

Definition event (e : Event) : Py unit :=
  fun s => {| result := Val tt; final := s; trace := [e] |}.

Definition raise {A} (e : Exc) : Py A :=
  fun s => {| result := Raised e; final := s; trace := [] |}.

Definition return_ {A} : Py A :=
  fun s => {| result := Returned; final := s; trace := [] |}.

Definition block {A} : Py A :=
  fun s => {| result := Blocked; final := s; trace := [] |}.

Definition get : Py State :=
  fun s => {| result := Val s; final := s; trace := [] |}.

Definition modify (f : State -> State) : Py unit :=
  fun s => {| result := Val tt; final := f s; trace := [] |}.

(** [try: body except ...: handler]; [handler e = None] when no clause
    matches [e].  An exception raised by the handler itself propagates. *)
Definition try_except (body : Py unit) (handler : Exc -> option (Py unit)) : Py unit :=
  fun s =>
    match body s with
    | {| result := Raised e; final := s1; trace := t1 |} =>
        match handler e with
        | Some h =>
            match h s1 with
            | {| result := r; final := s2; trace := t2 |} =>
                {| result := r; final := s2; trace := t1 ++ t2 |}
            end
        | None => {| result := Raised e; final := s1; trace := t1 |}
        end
    | r => r
    end.

(** The body of a [def]: a [return] ends it normally. *)
Definition def_ (body : Py unit) : Py unit :=
  fun s =>
    match body s with
    | {| result := Returned; final := s1; trace := t1 |} =>
        {| result := Val tt; final := s1; trace := t1 |}
    | r => r
    end.

Fixpoint for_each {A} (l : list A) (body : A -> Py unit) : Py unit :=
  match l with
  | [] => ret tt
  | x :: t => body x ;; for_each t body
  end.

(** The outcome of a library call: [None] is a normal return. *)
Definition call (r : option Exc) : Py unit :=
  match r with
  | None => ret tt
  | Some e => raise e
  end.

(** ** State updates *)

Definition set_server_process (p : option Popen) (s : State) : State :=
  {| server_process := p; client_process := client_process s;
     server_log := server_log s; client_log := client_log s;
     process_monitor := process_monitor s; log_handler := log_handler s;
     popen_calls := popen_calls s |}.

Definition set_client_process (p : option Popen) (s : State) : State :=
  {| server_process := server_process s; client_process := p;
     server_log := server_log s; client_log := client_log s;
     process_monitor := process_monitor s; log_handler := log_handler s;
     popen_calls := popen_calls s |}.

Definition server_log_append (m : pystr) (s : State) : State :=
  {| server_process := server_process s; client_process := client_process s;
     server_log := server_log s ++ [m]; client_log := client_log s;
     process_monitor := process_monitor s; log_handler := log_handler s;
     popen_calls := popen_calls s |}.

Definition client_log_append (m : pystr) (s : State) : State :=
  {| server_process := server_process s; client_process := client_process s;
     server_log := server_log s; client_log := client_log s ++ [m];
     process_monitor := process_monitor s; log_handler := log_handler s;
     popen_calls := popen_calls s |}.

Definition set_process_monitor (b : bool) (s : State) : State :=
  {| server_process := server_process s; client_process := client_process s;
     server_log := server_log s; client_log := client_log s;
     process_monitor := b; log_handler := log_handler s;
     popen_calls := popen_calls s |}.

Definition set_log_handler (b : bool) (s : State) : State :=
  {| server_process := server_process s; client_process := client_process s;
     server_log := server_log s; client_log := client_log s;
     process_monitor := process_monitor s; log_handler := b;
     popen_calls := popen_calls s |}.

Definition count_popen (s : State) : State :=
  {| server_process := server_process s; client_process := client_process s;
     server_log := server_log s; client_log := client_log s;
     process_monitor := process_monitor s; log_handler := log_handler s;
     popen_calls := S (popen_calls s) |}.

(** ** The program *)

Section Program.

Variable w : World.

(** [logging.info/warning/error(msg)]: the record goes to the configured
    handlers and, once [start_client] has installed a [LogHandler], its
    text is appended to the client log widget as well ([LogHandler.emit]). *)
Definition logging_as (lvl : Level) (msg shown : pystr) : Py unit :=
  event (Log lvl msg) ;;
  s <- get ;;
  if log_handler s then modify (client_log_append shown) else ret tt.

Definition logging (lvl : Level) (msg : pystr) : Py unit :=
  logging_as lvl msg msg.

(** [handle_exception], installed as [sys.excepthook]. *)
Definition handle_exception (e : Exc) : Py unit :=
  logging_as ERROR (utf8 "未捕获的异常:")
    (utf8 "未捕获的异常:" ++ [10%N] ++ format_exception w e) ;;
  logging ERROR (utf8 "异常堆栈跟踪:" ++ [10%N] ++ format_tb w e).

(** [subprocess.Popen([command], ...)]. *)
Definition Popen_ (who : Worker) (command : pystr) : Py Popen :=
  event (Spawn who command) ;;
  s <- get ;;
  modify count_popen ;;
  match popen w (popen_calls s) who command with
  | inl e => raise e
  | inr p => ret p
  end.

(** *** Stream readers *)

(** One call of [stream.readline()]: a line, or an exception. *)
Inductive Read := Line (l : pystr) | ReadError (e : Exc).

(** [for line in iter(stream.readline, ''): ...; stream.close()].  The list
    holds the successive answers of [readline]; past its end the stream is
    at end-of-file and [readline] answers ['']. *)
Fixpoint read_loop (tag : pystr) (who : Worker) (reads : list Read) : Py unit :=
  match reads with
  | [] => event StreamClose
  | ReadError e :: _ => raise e
  | Line l :: rest =>
      if eqb l [] then event StreamClose
      else
        logging INFO (tag ++ strip l) ;;
        event (Emit who (strip l)) ;;
        read_loop tag who rest
  end.

(** [read_output], defined in [start_core_server]. *)
Definition read_output (reads : list Read) : Py unit :=
  def_ (read_loop (utf8 "[Core Server] ") Server reads).

(** [read_client_output], defined in [MainWindow.start_client]. *)
Definition read_client_output (reads : list Read) : Py unit :=
  def_ (read_loop (utf8 "[Client] ") Client reads).

(** *** MainWindow *)

(** The state [MainWindow.__init__] leaves. *)
Definition init : State :=
  {| server_process := None; client_process := None;
     server_log := [];
     client_log := [utf8 "正在等待服务端启动...";
                    utf8 "请耐心等待，首次加载可能需要较长时间"];
     process_monitor := true; log_handler := false; popen_calls := 0 |}.

Definition append_client_log (message : pystr) : Py unit :=
  def_ (modify (client_log_append message)).

Definition client_exe_path : pystr :=
  path_join w (BASE_DIR w) (utf8 "start_client.exe").

Definition start_client : Py unit :=
  def_ (
    p <- Popen_ Client client_exe_path ;;
    modify (set_client_process (Some p)) ;;
    event (StartReader Client p Stdout) ;;
    event (StartReader Client p Stderr) ;;
    (* emitted on the window's own thread: the slot runs at once *)
    event (Emit Client (utf8 "客户端启动成功，开始加载模型...")) ;;
    append_client_log (utf8 "客户端启动成功，开始加载模型...") ;;
    s <- get ;;
    (if negb (log_handler s) then modify (set_log_handler true) else ret tt) ;;
    try_except
      (* ICON_PATH is bound nowhere in the module *)
      (raise {| kind := NameError; text := utf8 "name 'ICON_PATH' is not defined" |})
      (fun e => Some (logging ERROR (utf8 "设置窗口图标失败：" ++ text e)))).

Definition sentinel : pystr := utf8 "------------------------ 开始服务 ----------".

Definition append_server_log (message : pystr) : Py unit :=
  def_ (
    modify (server_log_append message) ;;
    if contains sentinel message then start_client else ret tt).

Definition process_of (who : Worker) (s : State) : option Popen :=
  match who with
  | Server => server_process s
  | Client => client_process s
  end.

Definition exit_message (who : Worker) (exit_code : Z) : pystr :=
  match who with
  | Server => utf8 "服务端进程异常退出，退出码: " ++ str_int exit_code
  | Client => utf8 "客户端进程异常退出，退出码: " ++ str_int exit_code
  end.

Definition exit_warning (who : Worker) (exit_code : Z) : pystr :=
  match who with
  | Server => utf8 "警告：服务端进程异常退出，退出码: " ++ str_int exit_code
  | Client => utf8 "警告：客户端进程异常退出，退出码: " ++ str_int exit_code
  end.

Definition log_append (who : Worker) : pystr -> State -> State :=
  match who with
  | Server => server_log_append
  | Client => client_log_append
  end.

(** One of the two blocks of [check_processes]. *)
Definition check_process (who : Worker) : Py unit :=
  s <- get ;;
  match process_of who s with
  | Some p =>
      match proc_poll w p with
      | Some exit_code =>
          logging ERROR (exit_message who exit_code) ;;
          if negb (exit_code =? 0)%Z
          then modify (log_append who (exit_warning who exit_code))
          else ret tt
      | None => ret tt
      end
  | None => ret tt
  end.

Definition check_processes : Py unit :=
  def_ (check_process Server ;; check_process Client).

(** The [QTimer] of [__init__] calls [check_processes] once a second for as
    long as it is active. *)
Definition tick : Py unit :=
  s <- get ;;
  if process_monitor s then check_processes else ret tt.

(** The [event] argument of [closeEvent]: [None] when it has no callable
    [spontaneous], else what [event.spontaneous()] answers. *)
Record CloseEvent := { spontaneous : option (Exc + bool) }.

Definition terminate_error (who : Worker) : pystr :=
  match who with
  | Server => utf8 "终止服务端进程时出错："
  | Client => utf8 "终止客户端进程时出错："
  end.

(** One of the two [if self.*_process: try: ... except ...] blocks of
    [closeEvent]. *)
Definition terminate_process (who : Worker) : Py unit :=
  s <- get ;;
  match process_of who s with
  | Some p =>
      try_except
        (event (Terminate who p) ;;
         call (proc_terminate w p) ;;
         event (WaitFor who p (Some 5%Z)) ;;
         call (proc_wait5 w p))
        (fun e =>
           if is_a TimeoutExpired e
           then Some (event (Kill who p) ;; call (proc_kill w p))
           else Some (logging ERROR (terminate_error who ++ text e)))
  | None => ret tt
  end.

Definition ps_call (r : option (PsutilError * pystr)) : Py unit :=
  match r with
  | None => ret tt
  | Some (e, msg) => raise (ps_exc e msg)
  end.

Definition is_psutil_error (e : Exc) : bool :=
  is_a NoSuchProcess e || is_a AccessDenied e || is_a ZombieProcess e.

Definition server_exe_name : pystr := utf8 "start_server.exe".

(** The loop over [psutil.process_iter] at the end of [closeEvent]. *)
Definition close_sweep : Py unit :=
  for_each (process_iter w) (fun proc =>
    try_except
      (if eqb (snd proc) server_exe_name then
         event (PsTerminate (fst proc)) ;;
         ps_call (ps_terminate w (fst proc)) ;;
         logging INFO (utf8 "终止已存在的start_server.exe进程 (PID: "
                         ++ str_int (fst proc) ++ utf8 ")")
       else ret tt)
      (fun e => if is_psutil_error e then Some (ret tt) else None)).

(** The first [if] of [closeEvent]: a spontaneous close only hides the
    window. *)
Definition close_guard (ev : CloseEvent) : Py unit :=
  match spontaneous ev with
  | Some answer =>
      try_except
        (b <- match answer with inl e => raise e | inr b => ret b end ;;
         if b : bool then event EventIgnore ;; event Hide ;; return_ else ret tt)
        (fun e => if is_a TypeError e then Some (ret tt) else None)
  | None => ret tt
  end.

(** Whether [closeEvent] goes past that first [if]. *)
Definition proceeds (ev : CloseEvent) : bool :=
  match spontaneous ev with
  | None => true
  | Some (inr b) => negb b
  | Some (inl e) => is_a TypeError e
  end.

(** [closeEvent] from its first termination block to [event.accept()]. *)
Definition shutdown_workers : Py unit :=
  terminate_process Server ;;
  terminate_process Client ;;
  close_sweep ;;
  event EventAccept.

Definition closeEvent (ev : CloseEvent) : Py unit :=
  def_ (
    close_guard ev ;;
    event MonitorStop ;;
    modify (set_process_monitor false) ;;
    shutdown_workers).

(** *** start_core_server *)

Definition server_exe_path : pystr := path_join w (BASE_DIR w) server_exe_name.

(** The head of [start_core_server]: the two path logs, the existence
    check and the permission check. *)
Definition check_executable : Py unit :=
  logging INFO (utf8 "当前工作目录: " ++ getcwd w) ;;
  logging INFO (utf8 "服务器启动文件路径: " ++ server_exe_path) ;;
  (if negb (path_exists w server_exe_path) then
     let error_msg := utf8 "错误：服务器可执行文件不存在: " ++ server_exe_path in
     logging ERROR error_msg ;;
     event (Emit Server error_msg) ;;
     return_
   else ret tt) ;;
  try_except
    (call (open_rb w server_exe_path) ;;
     logging INFO (utf8 "服务器可执行文件权限检查通过"))
    (fun e =>
       if is_a PermissionError e then
         let error_msg :=
           utf8 "错误：无法访问服务器可执行文件，权限不足: " ++ text e in
         Some (logging ERROR error_msg ;;
               event (Emit Server error_msg) ;;
               return_)
       else None).

(** The clean-up of [start_server.exe] processes left by an earlier run. *)
Definition sweep_existing : Py unit :=
  let existing_processes :=
    map fst (filter (fun proc => eqb (snd proc) server_exe_name) (process_iter w)) in
  match existing_processes with
  | [] => ret tt
  | _ :: _ =>
      logging INFO (utf8 "发现" ++ str_int (Z.of_nat (List.length existing_processes))
                      ++ utf8 "个已存在的服务器进程") ;;
      for_each existing_processes (fun pid =>
        try_except
          (event (PsTerminate pid) ;;
           ps_call (ps_terminate w pid) ;;
           logging INFO (utf8 "已终止服务器进程 (PID: " ++ str_int pid ++ utf8 ")"))
          (fun e => Some (logging WARNING
             (utf8 "终止进程 " ++ str_int pid ++ utf8 " 时出错: " ++ text e))))
  end.

(** The spawn of the primary, inside its [try]. *)
Definition launch_server : Py unit :=
  logging INFO (utf8 "准备启动服务器进程...") ;;
  let command := path_join w (BASE_DIR w) server_exe_name in
  logging INFO (utf8 "启动命令: " ++ command) ;;
  event (Emit Server (utf8 "正在启动服务器进程...")) ;;
  try_except
    (p <- Popen_ Server command ;;
     modify (set_server_process (Some p)) ;;
     let success_msg := utf8 "服务器进程已启动，PID: " ++ str_int (pid p) in
     logging INFO success_msg ;;
     event (Emit Server success_msg))
    (fun e =>
       let error_msg := utf8 "启动服务器进程失败: " ++ text e in
       Some (logging ERROR error_msg ;;
             event (Emit Server error_msg) ;;
             return_)).

(** The two reader threads and the final [window.server_process.wait()]. *)
Definition read_and_wait : Py unit :=
  s <- get ;;
  match server_process s with
  | Some p =>
      event (StartReader Server p Stdout) ;;
      event (StartReader Server p Stderr) ;;
      event (WaitFor Server p None) ;;
      if proc_exits w p then ret tt else block
  | None =>
      raise {| kind := AttributeError;
               text := utf8 "'NoneType' object has no attribute 'stdout'" |}
  end.

Definition start_core_server : Py unit :=
  def_ (check_executable ;; sweep_existing ;; launch_server ;; read_and_wait).

(** *** Delivery of emitted lines *)

(** A slot called by the event loop: an exception leaving it goes to
    [sys.excepthook] and the loop goes on. *)
Definition slot (body : Py unit) : Py unit :=
  try_except body (fun e => Some (handle_exception e)).

(** The lines emitted on [server_emitter] reach [append_server_log] one
    after the other, on the window's thread. *)
Definition deliver (lines : list pystr) : Py unit :=
  for_each lines (fun message => slot (append_server_log message)).

End Program.

(** ** Hosts that differ in one answer *)

Definition with_fs (w : World) (ex : pystr -> bool) (op : pystr -> option Exc) : World :=
  {| BASE_DIR := BASE_DIR w; getcwd := getcwd w; path_join := path_join w;
     path_exists := ex; open_rb := op;
     process_iter := process_iter w; ps_terminate := ps_terminate w;
     popen := popen w;
     proc_terminate := proc_terminate w; proc_wait5 := proc_wait5 w;
     proc_kill := proc_kill w; proc_poll := proc_poll w;
     proc_exits := proc_exits w;
     format_tb := format_tb w; format_exception := format_exception w |}.

Definition with_popen (w : World) (f : nat -> Worker -> pystr -> Exc + Popen) : World :=
  {| BASE_DIR := BASE_DIR w; getcwd := getcwd w; path_join := path_join w;
     path_exists := path_exists w; open_rb := open_rb w;
     process_iter := process_iter w; ps_terminate := ps_terminate w;
     popen := f;
     proc_terminate := proc_terminate w; proc_wait5 := proc_wait5 w;
     proc_kill := proc_kill w; proc_poll := proc_poll w;
     proc_exits := proc_exits w;
     format_tb := format_tb w; format_exception := format_exception w |}.

Definition with_control (w : World) (wt kl : Popen -> option Exc)
    (pl : Popen -> option Z) : World :=
  {| BASE_DIR := BASE_DIR w; getcwd := getcwd w; path_join := path_join w;
     path_exists := path_exists w; open_rb := open_rb w;
     process_iter := process_iter w; ps_terminate := ps_terminate w;
     popen := popen w;
     proc_terminate := proc_terminate w; proc_wait5 := wt;
     proc_kill := kl; proc_poll := pl;
     proc_exits := proc_exits w;
     format_tb := format_tb w; format_exception := format_exception w |}.

Definition with_processes (w : World) (l : list (Z * pystr)) : World :=
  {| BASE_DIR := BASE_DIR w; getcwd := getcwd w; path_join := path_join w;
     path_exists := path_exists w; open_rb := open_rb w;
     process_iter := l; ps_terminate := ps_terminate w;
     popen := popen w;
     proc_terminate := proc_terminate w; proc_wait5 := proc_wait5 w;
     proc_kill := proc_kill w; proc_poll := proc_poll w;
     proc_exits := proc_exits w;
     format_tb := format_tb w; format_exception := format_exception w |}.

(** ** Sample hosts and inputs *)

Module Sample.

(** A host where every call succeeds, nothing ever times out and the
    spawned workers keep running. *)
Definition calm : World :=
  {| BASE_DIR := utf8 "C:\caps"; getcwd := utf8 "C:\caps";
     path_join := fun a b => a ++ utf8 "\" ++ b;
     path_exists := fun _ => true;
     open_rb := fun _ => None;
     process_iter := [];
     ps_terminate := fun _ => None;
     popen := fun n _ _ => inr {| pid := 100 + Z.of_nat n |};
     proc_terminate := fun _ => None;
     proc_wait5 := fun _ => None;
     proc_kill := fun _ => None;
     proc_poll := fun _ => None;
     proc_exits := fun _ => false;
     format_tb := fun _ => [];
     format_exception := fun _ => [] |}.

(** Both workers are tracked: the primary as pid 1, the secondary as pid 2. *)
Definition both_running : State :=
  set_client_process (Some {| pid := 2 |})
    (set_server_process (Some {| pid := 1 |}) init).

(** A [QCloseEvent] sent by [window.close()]. *)
Definition close_request : CloseEvent := {| spontaneous := Some (inr false) |}.

Definition timeout_expired : Exc :=
  {| kind := TimeoutExpired; text := utf8 "timed out after 5 seconds" |}.

Definition access_denied : Exc :=
  {| kind := PermissionError; text := utf8 "[WinError 5] Access is denied" |}.

Definition file_not_found : Exc :=
  {| kind := FileNotFoundError;
     text := utf8 "[WinError 2] The system cannot find the file specified" |}.

Definition decode_error : Exc :=
  {| kind := UnicodeDecodeError;
     text := utf8 "'gbk' codec can't decode byte 0x80" |}.

(** The server executable is not there. *)
Definition no_executable : World :=
  with_fs calm (fun _ => false) (fun _ => Some file_not_found).

(** The client executable is not there: spawning it raises. *)
Definition no_client : World :=
  with_popen calm (fun n who _ =>
    match who with
    | Server => inr {| pid := 100 + Z.of_nat n |}
    | Client => inl file_not_found
    end).

(** No executable can be spawned. *)
Definition no_spawn : World := with_popen calm (fun _ _ _ => inl file_not_found).

(** The workers ignore [terminate()], the wait times out, and [kill()] is
    denied. *)
Definition stubborn : World :=
  with_control calm (fun _ => Some timeout_expired) (fun _ => Some access_denied)
    (fun _ => None).

(** Both workers have exited with code 1. *)
Definition crashed : World :=
  with_control calm (fun _ => None) (fun _ => None) (fun _ => Some 1%Z).

(** Two [start_server.exe] processes of an earlier run are on the host. *)
Definition with_orphans : World :=
  with_processes calm [(11%Z, utf8 "start_server.exe"); (12%Z, utf8 "explorer.exe");
                       (13%Z, utf8 "start_server.exe")].

(** The workers ignore [terminate()] and the wait times out, but [kill()]
    succeeds. *)
Definition stubborn_but_killable : World :=
  with_control calm (fun _ => Some timeout_expired) (fun _ => None) (fun _ => None).

End Sample.

(** ** Observations on traces *)

Definition is_spawn (who : Worker) (e : Event) : bool :=
  match e, who with
  | Spawn Server _, Server | Spawn Client _, Client => true
  | _, _ => false
  end.

Definition is_terminate (who : Worker) (e : Event) : bool :=
  match e, who with
  | Terminate Server _, Server | Terminate Client _, Client => true
  | _, _ => false
  end.

(** Calls of [subprocess.Popen] for a worker. *)
Definition spawns (who : Worker) (t : list Event) : nat :=
  List.length (filter (is_spawn who) t).

(** The messages handed to a worker's emitter, in order. *)
Fixpoint emitted (who : Worker) (t : list Event) : list pystr :=
  match t with
  | [] => []
  | Emit who' m :: t' =>
      match who, who' with
      | Server, Server | Client, Client => m :: emitted who t'
      | _, _ => emitted who t'
      end
  | _ :: t' => emitted who t'
  end.

(** Position of the first event satisfying [P]. *)
Fixpoint first_index (P : Event -> bool) (t : list Event) : option nat :=
  match t with
  | [] => None
  | e :: t' => if P e then Some 0 else option_map S (first_index P t')
  end.

(** Events that act on a worker process or report a fault. *)
Definition is_control (e : Event) : bool :=
  match e with
  | Spawn _ _ | StartReader _ _ _ | Terminate _ _ | WaitFor _ _ _ | Kill _ _ => true
  | _ => false
  end.

Definition is_fault (e : Event) : bool :=
  match e with
  | Log ERROR _ | Log WARNING _ => true
  | _ => false
  end.

Definition log_of (who : Worker) (s : State) : list pystr :=
  match who with
  | Server => server_log s
  | Client => client_log s
  end.

Definition pystr_eq_dec : forall a b : pystr, {a = b} + {a <> b} :=
  list_eq_dec N.eq_dec.

(** [n] firings of the liveness timer. *)
Fixpoint ticks (w : World) (n : nat) : Py unit :=
  match n with
  | O => ret tt
  | S k => tick w ;; ticks w k
  end.

(** The exception, if any, that leaves the [try] body of a termination
    block: [terminate()] then [wait(timeout=5)]. *)
Definition graceful (w : World) (p : Popen) : option Exc :=
  match proc_terminate w p with
  | Some e => Some e
  | None => proc_wait5 w p
  end.

(** What a reader does with one line it has read. *)
Definition line_events (tag : pystr) (who : Worker) (l : pystr) : list Event :=
  [Log INFO (tag ++ strip l); Emit who (strip l)].

(** [d] is [l] without a run of whitespace at its start and one at its
    end, and neither starts nor ends with whitespace itself. *)
Definition trimmed_both_ends (l d : pystr) : Prop :=
  (exists lead trail,
     l = lead ++ d ++ trail
     /\ forallb isspace lead = true /\ forallb isspace trail = true)
  /\ (forall c t, d = c :: t -> isspace c = false)
  /\ (forall t c, d = t ++ [c] -> isspace c = false).

Definition sample_lines : list pystr :=
  [utf8 "  loading model" ++ [10%N]; utf8 "ready" ++ [32%N; 13%N; 10%N]].

(** The delivered lines that contain the sentinel. *)
Definition sentinel_lines (lines : list pystr) : nat :=
  List.length (filter (contains sentinel) lines).

(** [s'] differs from [s] at most in the text of the client log. *)
Definition same_handles (s s' : State) : Prop :=
  server_process s' = server_process s
  /\ client_process s' = client_process s
  /\ server_log s' = server_log s
  /\ process_monitor s' = process_monitor s
  /\ log_handler s' = log_handler s
  /\ popen_calls s' = popen_calls s.

Definition quiet (t : list Event) : Prop :=
  Forall (fun e => is_control e = false) t.

(** The run reported a failure: the same message went to the log as an
    error and to the server's emitter. *)
Definition reports_failure (t : list Event) : Prop :=
  exists msg, In (Log ERROR msg) t /\ In (Emit Server msg) t.

(** What the termination blocks of [closeEvent] promise of each event:
    a wait is bounded by five seconds, and a worker is killed only after
    [TimeoutExpired] left its [terminate()]/[wait(timeout=5)]. *)
Definition bounded_escalation (w : World) (e : Event) : Prop :=
  match e with
  | WaitFor _ _ tmo => tmo = Some 5%Z
  | Kill _ p => exists x, graceful w p = Some x /\ kind x = TimeoutExpired
  | Spawn _ _ | StartReader _ _ _ => False
  | _ => True
  end.

(** Events of the termination block of worker [who]. *)
Definition about_worker (who : Worker) (e : Event) : Prop :=
  match e with
  | Terminate who' _ | WaitFor who' _ _ | Kill who' _ => who' = who
  | Log ERROR _ => True
  | _ => False
  end.

Definition harmless (e : Event) : Prop :=
  is_control e = false /\ is_fault e = false.

(** Re-terminating [p] on host [w] does not time out: the process is
    already gone, so [wait(timeout=5)] answers at once. *)
Definition already_terminated (w : World) (p : Popen) : Prop :=
  forall x, graceful w p = Some x -> kind x <> TimeoutExpired.

(** A computation that keeps the handles and whose every event respects
    [bounded_escalation]. *)
Definition tame (w : World) (m : Py unit) : Prop :=
  forall s, same_handles s (final (m s))
            /\ Forall (bounded_escalation w) (trace (m s)).

(** No process on the host carries the server's executable name. *)
Definition no_orphans (w : World) : Prop :=
  forall proc, In proc (process_iter w) -> eqb (snd proc) server_exe_name = false.

(** How often the crash warning for [who] with exit code [c] stands in
    that worker's log. *)
Definition warnings (who : Worker) (c : Z) (s : State) : nat :=
  count_occ pystr_eq_dec (log_of who s) (exit_warning who c).

(** ** Further observations *)

(** The pids handed to [psutil.Process(pid).terminate()], in order. *)
Fixpoint ps_terminated (t : list Event) : list Z :=
  match t with
  | [] => []
  | PsTerminate pid :: t' => pid :: ps_terminated t'
  | _ :: t' => ps_terminated t'
  end.

Definition is_log (lvl : Level) (e : Event) : bool :=
  match e, lvl with
  | Log INFO _, INFO | Log WARNING _, WARNING | Log ERROR _, ERROR => true
  | _, _ => false
  end.

(** Records logged at level [lvl]. *)
Definition log_count (lvl : Level) (t : list Event) : nat :=
  List.length (filter (is_log lvl) t).

(** The processes of the host that carry the server's executable name. *)
Definition server_pids (w : World) : list Z :=
  map fst (filter (fun proc => eqb (snd proc) server_exe_name) (process_iter w)).

Definition ps_fails (w : World) (pid : Z) : bool :=
  match ps_terminate w pid with
  | Some _ => true
  | None => false
  end.

(** The texts logged at level [lvl], in order. *)
Fixpoint logged (lvl : Level) (t : list Event) : list pystr :=
  match t with
  | [] => []
  | Log lvl' m :: t' =>
      match lvl, lvl' with
      | INFO, INFO | WARNING, WARNING | ERROR, ERROR => m :: logged lvl t'
      | _, _ => logged lvl t'
      end
  | _ :: t' => logged lvl t'
  end.

(** Starting a reader thread, or waiting for a process. *)
Definition is_attach (e : Event) : bool :=
  match e with
  | StartReader _ _ _ | WaitFor _ _ _ => true
  | _ => false
  end.

(** The forced kill of [p] is reached and raises: [TimeoutExpired] leaves
    the graceful attempt and [kill()] fails. *)
Definition kill_fails (w : World) (p : Popen) : Prop :=
  exists x k, graceful w p = Some x /\ kind x = TimeoutExpired
              /\ proc_kill w p = Some k.

Definition is_error_log (e : Event) : Prop :=
  exists m, e = Log ERROR m.

(** ** get_icon_path *)

(** What [get_icon_path] reads besides the [World]: [sys.frozen],
    [sys._MEIPASS] ([None] when the attribute is missing), the directory of
    the module file, and the [repr] of a list of paths. *)
Record IconEnv := {
  frozen : bool;
  MEIPASS : option pystr;
  module_dir : pystr;
  repr_paths : list pystr -> pystr
}.

(** [try: body except Exception as e: handler], for a body with a value. *)
Definition try_value {A} (body : Py A) (handler : Exc -> Py A) : Py A :=
  fun s =>
    match body s with
    | {| result := Raised e; final := s1; trace := t1 |} =>
        match handler e s1 with
        | {| result := r; final := s2; trace := t2 |} =>
            {| result := r; final := s2; trace := t1 ++ t2 |}
        end
    | r => r
    end.

Section Icon.

Variable w : World.
Variable env : IconEnv.

(** [os.path.join(d, "assets", "icon.ico")]. *)
Definition icon_in (d : pystr) : pystr :=
  path_join w (path_join w d (utf8 "assets")) (utf8 "icon.ico").

(** The [for alt_path in alt_paths] loop: [Some alt_path] when it returns
    from inside, [None] when it runs out. *)
Fixpoint first_alt (alt_paths : list pystr) : Py (option pystr) :=
  match alt_paths with
  | [] => ret None
  | alt_path :: rest =>
      if path_exists w alt_path then
        logging INFO (utf8 "使用备选图标路径：" ++ alt_path) ;;
        ret (Some alt_path)
      else first_alt rest
  end.

Definition get_icon_path : Py (option pystr) :=
  try_value
    (icon_path <-
       (if frozen env then
          match MEIPASS env with
          | Some d => ret (icon_in d)
          | None =>
              raise {| kind := AttributeError;
                       text := utf8 "module 'sys' has no attribute '_MEIPASS'" |}
          end
        else ret (icon_in (module_dir env))) ;;
     if negb (path_exists w icon_path) then
       logging ERROR (utf8 "图标文件不存在：" ++ icon_path) ;;
       let alt_paths := [icon_in (module_dir env); icon_in (getcwd w)] in
       found <- first_alt alt_paths ;;
       match found with
       | Some alt_path => ret (Some alt_path)
       | None =>
           raise {| kind := FileNotFoundError;
                    text := utf8 "无法找到图标文件，已尝试的路径："
                              ++ repr_paths env (icon_path :: alt_paths) |}
       end
     else ret (Some icon_path))
    (fun e =>
       logging ERROR (utf8 "获取图标路径时出错：" ++ text e) ;;
       ret None).

(** The paths [get_icon_path] tries, in order, given the directory of its
    first choice. *)
Definition icon_candidates (first_dir : pystr) : list pystr :=
  [icon_in first_dir; icon_in (module_dir env); icon_in (getcwd w)].

End Icon.

(** ** Dragging the frameless window *)

(** A [QPoint]: two C [int]s. *)
Definition QPoint := (Z * Z)%type.

Definition wrap32 (z : Z) : Z := (z + 2147483648) mod 4294967296 - 2147483648.

(** [a - b] on [QPoint]s. *)
Definition qsub (a b : QPoint) : QPoint :=
  (wrap32 (fst a - fst b), wrap32 (snd a - snd b)).

(** [Qt.MouseButton.LeftButton]. *)
Definition LeftButton : Z := 1.

Record QMouseEvent := {
  button : Z;          (* event.button() *)
  buttons : Z;         (* event.buttons(), a set of flags *)
  globalPos : QPoint   (* event.globalPos() *)
}.

(** The window's position and [self._drag_pos]. *)
Record Window := {
  pos : QPoint;
  _drag_pos : option QPoint
}.

(** Each handler gives the window after the event and whether the event
    was accepted. *)
Definition mousePressEvent (win : Window) (event : QMouseEvent) : Window * bool :=
  if (button event =? LeftButton)%Z then
    ({| pos := pos win; _drag_pos := Some (qsub (globalPos event) (pos win)) |}, true)
  else (win, false).

Definition mouseMoveEvent (win : Window) (event : QMouseEvent) : Window * bool :=
  if negb (Z.land (buttons event) LeftButton =? 0)%Z then
    match _drag_pos win with
    | Some d =>
        ({| pos := qsub (globalPos event) d; _drag_pos := Some d |}, true)
    | None => (win, false)
    end
  else (win, false).

Definition mouseReleaseEvent (win : Window) (event : QMouseEvent) : Window * bool :=
  if (button event =? LeftButton)%Z then
    ({| pos := pos win; _drag_pos := None |}, true)
  else (win, false).

(** A run of move events. *)
Definition moves (win : Window) (events : list QMouseEvent) : Window :=
  fold_left (fun wn ev => fst (mouseMoveEvent wn ev)) events win.

Definition in_int (z : Z) : Prop := (-2147483648 <= z < 2147483648)%Z.

Definition left_held (event : QMouseEvent) : Prop :=
  Z.land (buttons event) LeftButton <> 0%Z.

(** The process-control calls one termination block of [closeEvent] makes
    for worker [who] with handle [p] on host [w]: the graceful request;
    then, if that returned, the wait of five seconds; then the kill, exactly
    when [TimeoutExpired] came out of the two. *)
Definition grace_events (w : World) (who : Worker) (p : Popen) : list Event :=
  Terminate who p ::
  match proc_terminate w p with
  | Some x => if is_a TimeoutExpired x then [Kill who p] else []
  | None =>
      WaitFor who p (Some 5%Z) ::
      match proc_wait5 w p with
      | Some x => if is_a TimeoutExpired x then [Kill who p] else []
      | None => []
      end
  end.

(** ** Python strings: facts *)

Lemma eqb_eq (a b : pystr) : eqb a b = true <-> a = b.
Proof.
  unfold eqb. destruct (list_eq_dec N.eq_dec a b); split; congruence.
Qed.

Example utf8_sample : utf8 "a 开始" = [97; 32; 24320; 22987]%N.
Proof. reflexivity. Qed.

Example str_int_sample : str_int (-15) = utf8 "-15" /\ str_int 0 = utf8 "0".
Proof. split; reflexivity. Qed.

Example strip_sample : strip (utf8 "  a b
") = utf8 "a b".
Proof. reflexivity. Qed.

Lemma lstrip_split (s : pystr) :
  exists lead, s = lead ++ lstrip s /\ forallb isspace lead = true.
Proof.
  induction s as [|c t [lead [Heq Hsp]]]; simpl.
  - exists []. auto.
  - destruct (isspace c) eqn:Hc.
    + exists (c :: lead). split.
      * simpl. f_equal. exact Heq.
      * simpl. now rewrite Hc.
    + exists []. auto.
Qed.

Lemma lstrip_head (s : pystr) (c : N) (t : pystr) :
  lstrip s = c :: t -> isspace c = false.
Proof.
  induction s as [|a s' IH]; simpl; [discriminate|].
  destruct (isspace a) eqn:Ha; [exact IH|].
  intros H. injection H as <- _. exact Ha.
Qed.

Lemma forallb_rev {A} (f : A -> bool) (l : list A) :
  forallb f (rev l) = forallb f l.
Proof.
  induction l as [|a l IH]; simpl; [reflexivity|].
  rewrite forallb_app, IH. simpl. rewrite andb_true_r. apply andb_comm.
Qed.

Lemma rstrip_split (s : pystr) :
  exists trail, s = rstrip s ++ trail /\ forallb isspace trail = true.
Proof.
  unfold rstrip. destruct (lstrip_split (rev s)) as [lead [Heq Hsp]].
  exists (rev lead). split.
  - rewrite <- rev_app_distr, <- Heq. symmetry. apply rev_involutive.
  - now rewrite forallb_rev.
Qed.

Lemma rstrip_last (s t : pystr) (c : N) :
  rstrip s = t ++ [c] -> isspace c = false.
Proof.
  unfold rstrip. intros H.
  apply (f_equal (@rev N)) in H.
  rewrite rev_involutive, rev_app_distr in H. simpl in H.
  exact (lstrip_head _ H).
Qed.

(** [strip] cuts a run of whitespace off each end and nothing else. *)
Lemma strip_split (s : pystr) :
  exists lead trail,
    s = lead ++ strip s ++ trail
    /\ forallb isspace lead = true /\ forallb isspace trail = true.
Proof.
  destruct (lstrip_split s) as [lead [H1 Hl]].
  destruct (rstrip_split (lstrip s)) as [trail [H2 Ht]].
  exists lead, trail. unfold strip. rewrite <- H2. auto.
Qed.

Lemma strip_head (s : pystr) (c : N) (t : pystr) :
  strip s = c :: t -> isspace c = false.
Proof.
  unfold strip. intros H.
  destruct (rstrip_split (lstrip s)) as [trail [H2 _]].
  rewrite H in H2. simpl in H2. exact (lstrip_head _ H2).
Qed.

Lemma strip_last (s t : pystr) (c : N) :
  strip s = t ++ [c] -> isspace c = false.
Proof. unfold strip. apply rstrip_last. Qed.

(** ** The monad: running a sequence *)

(** Literals stay folded while a run is unfolded. *)
Arguments utf8 : simpl never.
Arguments str_int : simpl never.
Arguments sentinel : simpl never.

Lemma bind_val {A B} (m : Py A) (f : A -> Py B) (s : State) (a : A) :
  result (m s) = Val a ->
  bind m f s =
  {| result := result (f a (final (m s)));
     final := final (f a (final (m s)));
     trace := trace (m s) ++ trace (f a (final (m s))) |}.
Proof.
  unfold bind. destruct (m s) as [r s1 t1]. simpl. intros ->.
  destruct (f a s1); reflexivity.
Qed.

Lemma bind_stop {A B} (m : Py A) (f : A -> Py B) (s : State) :
  (forall a, result (m s) <> Val a) ->
  trace (bind m f s) = trace (m s) /\ final (bind m f s) = final (m s)
  /\ (result (m s) = Returned -> result (bind m f s) = Returned)
  /\ (result (m s) = Blocked -> result (bind m f s) = Blocked)
  /\ (forall e, result (m s) = Raised e -> result (bind m f s) = Raised e).
Proof.
  unfold bind. destruct (m s) as [[a| |e|] s1 t1]; simpl; intros H;
    try (exfalso; exact (H a eq_refl)); repeat split; congruence.
Qed.

Lemma logging_run (lvl : Level) (msg : pystr) (s : State) :
  logging lvl msg s =
  {| result := Val tt;
     final := if log_handler s then client_log_append msg s else s;
     trace := [Log lvl msg] |}.
Proof.
  unfold logging, logging_as, bind, event, get, modify, ret. simpl.
  destruct (log_handler s); reflexivity.
Qed.

(** ** Stream readers *)

Lemma emitted_app (who : Worker) (t1 t2 : list Event) :
  emitted who (t1 ++ t2) = emitted who t1 ++ emitted who t2.
Proof.
  induction t1 as [|e t1 IH]; simpl; [reflexivity|].
  destruct e; try exact IH.
  destruct who, w; simpl; rewrite ?IH; reflexivity.
Qed.

Lemma emitted_line_events (tag : pystr) (who : Worker) (ls : list pystr) :
  emitted who (flat_map (line_events tag who) ls) = map strip ls.
Proof.
  induction ls as [|l ls IH]; simpl; [reflexivity|].
  destruct who; simpl; now rewrite IH.
Qed.

(** Reading a run of non-empty lines logs and emits each, then goes on
    with what follows. *)
Lemma read_loop_lines (tag : pystr) (who : Worker) (ls : list pystr)
    (rest : list Read) (s : State) :
  Forall (fun l => l <> []) ls ->
  exists s',
    log_handler s' = log_handler s
    /\ result (read_loop tag who (map Line ls ++ rest) s)
       = result (read_loop tag who rest s')
    /\ trace (read_loop tag who (map Line ls ++ rest) s)
       = flat_map (line_events tag who) ls ++ trace (read_loop tag who rest s').
Proof.
  intros H. revert s. induction H as [|l ls Hl _ IH]; intros s; simpl.
  - exists s. auto.
  - destruct (eqb l []) eqn:E; [apply eqb_eq in E; contradiction|].
    rewrite (bind_val _ _ _ (a := tt)) by (rewrite logging_run; reflexivity).
    rewrite logging_run. simpl.
    set (s1 := if log_handler s then client_log_append (tag ++ strip l) s else s).
    destruct (IH s1) as [s' [Hh [Hr Ht]]].
    exists s'. split; [|split].
    + rewrite Hh. subst s1. destruct (log_handler s) eqn:Hs; simpl; auto.
    + rewrite (bind_val _ _ _ (a := tt)) by reflexivity. exact Hr.
    + rewrite (bind_val _ _ _ (a := tt)) by reflexivity. simpl. now rewrite Ht.
Qed.

Lemma strip_trimmed (l : pystr) : trimmed_both_ends l (strip l).
Proof.
  split; [apply strip_split|].
  split; intros; [eapply strip_head | eapply strip_last]; eassumption.
Qed.

Lemma read_loop_to_eof (tag : pystr) (who : Worker) (ls : list pystr) (s : State) :
  Forall (fun l => l <> []) ls ->
  result (read_loop tag who (map Line ls) s) = Val tt
  /\ trace (read_loop tag who (map Line ls) s)
     = flat_map (line_events tag who) ls ++ [StreamClose].
Proof.
  intros H.
  destruct (read_loop_lines tag who [] s H) as [s' [_ [Hr Ht]]].
  rewrite app_nil_r in Hr, Ht. rewrite Hr, Ht. simpl. auto.
Qed.

Lemma read_loop_to_error (tag : pystr) (who : Worker) (ls : list pystr)
    (e : Exc) (post : list Read) (s : State) :
  Forall (fun l => l <> []) ls ->
  result (read_loop tag who (map Line ls ++ ReadError e :: post) s) = Raised e
  /\ trace (read_loop tag who (map Line ls ++ ReadError e :: post) s)
     = flat_map (line_events tag who) ls.
Proof.
  intros H.
  destruct (read_loop_lines tag who (ReadError e :: post) s H)
    as [s' [_ [Hr Ht]]].
  rewrite Hr, Ht. simpl. rewrite app_nil_r. auto.
Qed.

Lemma def_result_trace (body : Py unit) (s : State) :
  trace (def_ body s) = trace (body s)
  /\ (result (body s) = Val tt -> result (def_ body s) = Val tt)
  /\ (forall e, result (body s) = Raised e -> result (def_ body s) = Raised e).
Proof.
  unfold def_. destruct (body s) as [[a| |e|] s1 t1]; simpl;
    repeat split; intros; congruence.
Qed.

Lemma line_events_quiet (tag : pystr) (who : Worker) (ls : list pystr) (e : Event) :
  In e (flat_map (line_events tag who) ls) ->
  e <> StreamClose /\ is_fault e = false.
Proof.
  rewrite in_flat_map. intros [l [_ [<- | [<- | []]]]]; split;
    first [discriminate | reflexivity].
Qed.

(** C5 (as amended): on a stream that yields the lines [ls] and then
    end-of-file, a reader hands the emitter one message per line, in the
    order read, and the message for a line is the line with the whitespace
    at BOTH ends removed ([line.strip()]); the text in between is kept. *)
Theorem reader_delivers_lines_stripped_both_ends (ls : list pystr) (s : State) :
  Forall (fun l => l <> []) ls ->
  (result (read_output (map Line ls) s) = Val tt
   /\ emitted Server (trace (read_output (map Line ls) s)) = map strip ls)
  /\ (result (read_client_output (map Line ls) s) = Val tt
      /\ emitted Client (trace (read_client_output (map Line ls) s)) = map strip ls)
  /\ Forall2 trimmed_both_ends ls (map strip ls).
Proof.
  intros H. unfold read_output, read_client_output.
  repeat split.
  - apply def_result_trace. now apply read_loop_to_eof.
  - rewrite (proj1 (def_result_trace _ _)).
    rewrite (proj2 (read_loop_to_eof _ _ s H)).
    rewrite emitted_app, emitted_line_events. simpl. apply app_nil_r.
  - apply def_result_trace. now apply read_loop_to_eof.
  - rewrite (proj1 (def_result_trace _ _)).
    rewrite (proj2 (read_loop_to_eof _ _ s H)).
    rewrite emitted_app, emitted_line_events. simpl. apply app_nil_r.
  - clear H. induction ls; simpl; constructor; auto using strip_trimmed.
Qed.

Lemma reader_delivers_lines_witness :
  emitted Server (trace (read_output (map Line sample_lines) init))
  = map strip sample_lines.
Proof.
  apply (reader_delivers_lines_stripped_both_ends (ls := sample_lines) init).
  repeat constructor; discriminate.
Defined.

(** C5, as stated, fails: a line that starts with blanks is not delivered
    with only its trailing whitespace removed. *)
Lemma reader_keeps_leading_whitespace_counterexample :
  emitted Server (trace (read_output [Line (utf8 "  hi" ++ [10%N])] init))
  = [utf8 "hi"]
  /\ emitted Server (trace (read_output [Line (utf8 "  hi" ++ [10%N])] init))
     <> map rstrip [utf8 "  hi" ++ [10%N]].
Proof. split; [reflexivity | vm_compute; discriminate]. Qed.

(** C4 (as amended): when [readline] raises after the lines [ls], the
    exception leaves the reader: the lines read before it have been logged
    and emitted, nothing is logged about the failure and the stream is not
    closed.  Only at end-of-file does the reader close the stream and
    return. *)
Theorem reader_read_error_propagates (ls : list pystr) (e : Exc)
    (post : list Read) (s : State) :
  Forall (fun l => l <> []) ls ->
  (result (read_output (map Line ls ++ ReadError e :: post) s) = Raised e
   /\ trace (read_output (map Line ls ++ ReadError e :: post) s)
      = flat_map (line_events (utf8 "[Core Server] ") Server) ls)
  /\ (result (read_client_output (map Line ls ++ ReadError e :: post) s) = Raised e
      /\ trace (read_client_output (map Line ls ++ ReadError e :: post) s)
         = flat_map (line_events (utf8 "[Client] ") Client) ls)
  /\ (forall ev,
        In ev (trace (read_output (map Line ls ++ ReadError e :: post) s))
        \/ In ev (trace (read_client_output (map Line ls ++ ReadError e :: post) s)) ->
        ev <> StreamClose /\ is_fault ev = false)
  /\ (result (read_output (map Line ls) s) = Val tt
      /\ trace (read_output (map Line ls) s)
         = flat_map (line_events (utf8 "[Core Server] ") Server) ls ++ [StreamClose]).
Proof.
  intros H. unfold read_output, read_client_output.
  assert (Hs := read_loop_to_error (utf8 "[Core Server] ") Server e post s H).
  assert (Hc := read_loop_to_error (utf8 "[Client] ") Client e post s H).
  assert (Hn := read_loop_to_eof (utf8 "[Core Server] ") Server s H).
  repeat rewrite (proj1 (def_result_trace _ _)).
  destruct Hs as [Hs1 Hs2], Hc as [Hc1 Hc2], Hn as [Hn1 Hn2].
  repeat split; try (apply def_result_trace; assumption); try assumption.
  - destruct H0 as [H0 | H0]; [rewrite Hs2 in H0 | rewrite Hc2 in H0];
      eapply line_events_quiet; eassumption.
  - destruct H0 as [H0 | H0]; [rewrite Hs2 in H0 | rewrite Hc2 in H0];
      eapply line_events_quiet; eassumption.
Qed.

Lemma reader_read_error_witness :
  result (read_output (map Line sample_lines ++ [ReadError Sample.decode_error]) init)
  = Raised Sample.decode_error.
Proof.
  apply (reader_read_error_propagates (ls := sample_lines) Sample.decode_error [] init).
  repeat constructor; discriminate.
Defined.

(** C4, as stated, fails: a read error after the first line leaves the
    reader as an exception, and the stream is never closed. *)
Lemma reader_read_error_counterexample :
  let r := read_output [Line (utf8 "loading" ++ [10%N]);
                        ReadError Sample.decode_error] init in
  result r = Raised Sample.decode_error
  /\ result r <> Val tt
  /\ ~ In StreamClose (trace r)
  /\ (forall ev, In ev (trace r) -> is_fault ev = false).
Proof.
  vm_compute. repeat split; try discriminate.
  - intros [H | [H | []]]; discriminate.
  - intros ev [<- | [<- | []]]; reflexivity.
Qed.

(** ** The readiness check *)

Lemma spawns_app (who : Worker) (t1 t2 : list Event) :
  spawns who (t1 ++ t2) = spawns who t1 + spawns who t2.
Proof. unfold spawns. now rewrite filter_app, length_app. Qed.

(** Unfolding a run: the combinators are expanded, the literals are not. *)
Ltac run :=
  cbv beta iota zeta delta
    [bind def_ try_except event get modify ret raise return_ block call ps_call
     logging logging_as
     result final trace
     server_process client_process server_log client_log process_monitor
     log_handler popen_calls
     set_server_process set_client_process server_log_append client_log_append
     set_process_monitor set_log_handler count_popen log_append process_of
     negb kind text];
  cbn [app].

Lemma start_client_run (w : World) (s : State) :
  spawns Client (trace (start_client w s)) = 1
  /\ (result (start_client w s) = Val tt
      \/ exists e, result (start_client w s) = Raised e).
Proof.
  destruct s as [sp cp sl cl pm lh pc].
  unfold start_client, Popen_, append_client_log. run.
  destruct (popen w pc Client _) as [e | p]; run.
  - split; [reflexivity | right; eauto].
  - destruct lh; run; split; auto.
Qed.

Lemma slot_append_server_log (w : World) (message : pystr) (s : State) :
  result (slot w (append_server_log w message) s) = Val tt
  /\ spawns Client (trace (slot w (append_server_log w message) s))
     = if contains sentinel message then 1 else 0.
Proof.
  destruct s as [sp cp sl cl pm lh pc].
  unfold slot, append_server_log. run.
  destruct (contains sentinel message); [|run; auto].
  match goal with
  | |- context [start_client w ?x] =>
      destruct (start_client_run w x) as [Hn Hr];
      destruct (start_client w x) as [r [sp1 cp1 sl1 cl1 pm1 lh1 pc1] t1]
  end.
  cbn [result trace] in Hn, Hr.
  destruct Hr as [-> | [e ->]]; run; [auto|].
  unfold handle_exception. run.
  destruct lh1; run; rewrite spawns_app, Hn; auto.
Qed.

(** C1 (as amended): every delivered line that contains the sentinel
    calls [start_client], the first such line as well as each later one:
    the number of client spawns equals the number of sentinel lines, and
    the delivery itself always runs to its end. *)
Theorem start_client_fires_once_per_sentinel_line (w : World)
    (lines : list pystr) (s : State) :
  result (deliver w lines s) = Val tt
  /\ spawns Client (trace (deliver w lines s)) = sentinel_lines lines.
Proof.
  revert s. unfold deliver, sentinel_lines.
  induction lines as [|m lines IH]; intros s; simpl; [auto|].
  destruct (slot_append_server_log w m s) as [Hr Hn].
  rewrite (bind_val _ _ _ Hr). simpl.
  destruct (IH (final (slot w (append_server_log w m) s))) as [IHr IHn].
  split; [exact IHr|].
  rewrite spawns_app, Hn, IHn.
  destruct (contains sentinel m); reflexivity.
Qed.

(** C1, as stated, fails: two lines with the sentinel start the client
    twice, and the window then tracks the second process. *)
Lemma start_client_fires_twice_counterexample :
  let r := deliver Sample.calm [utf8 "booting"; sentinel; sentinel] init in
  spawns Client (trace r) = 2
  /\ spawns Client (trace r) <> 1
  /\ client_process (final r) = Some {| pid := 101 |}.
Proof. vm_compute. repeat split; discriminate. Qed.

(** ** start_core_server, phase by phase *)

Lemma bind_returned {A B} (m : Py A) (f : A -> Py B) (s : State) :
  result (m s) = Returned ->
  bind m f s = {| result := Returned; final := final (m s); trace := trace (m s) |}.
Proof.
  unfold bind. destruct (m s) as [r s1 t1]. simpl. intros ->. reflexivity.
Qed.

Lemma def_run (body : Py unit) (s : State) :
  def_ body s =
  {| result := match result (body s) with
               | Returned => Val tt
               | r => r
               end;
     final := final (body s);
     trace := trace (body s) |}.
Proof. unfold def_. destruct (body s) as [[[]| |e|] s1 t1]; reflexivity. Qed.

Lemma same_handles_refl (s : State) : same_handles s s.
Proof. unfold same_handles. auto 10. Qed.

Lemma same_handles_trans (s1 s2 s3 : State) :
  same_handles s1 s2 -> same_handles s2 s3 -> same_handles s1 s3.
Proof. unfold same_handles. intuition congruence. Qed.

Lemma quiet_app (t1 t2 : list Event) : quiet t1 -> quiet t2 -> quiet (t1 ++ t2).
Proof. unfold quiet. intros. apply Forall_app. auto. Qed.

Ltac frame := unfold same_handles, quiet, reports_failure; cbn;
  repeat split; auto; try (repeat constructor).

Lemma check_executable_ok (w : World) (s : State) :
  path_exists w (server_exe_path w) = true ->
  open_rb w (server_exe_path w) = None ->
  result (check_executable w s) = Val tt
  /\ same_handles s (final (check_executable w s))
  /\ quiet (trace (check_executable w s)).
Proof.
  intros Hex Hop. destruct s as [sp cp sl cl pm lh pc].
  unfold check_executable. run. rewrite Hex, Hop.
  destruct lh; run; frame.
Qed.

Lemma check_executable_fail (w : World) (s : State) :
  path_exists w (server_exe_path w) = false
  \/ (exists e, open_rb w (server_exe_path w) = Some e /\ kind e = PermissionError) ->
  result (check_executable w s) = Returned
  /\ same_handles s (final (check_executable w s))
  /\ quiet (trace (check_executable w s))
  /\ reports_failure (trace (check_executable w s)).
Proof.
  intros H. destruct s as [sp cp sl cl pm lh pc].
  unfold check_executable. run.
  destruct (path_exists w (server_exe_path w)) eqn:Hex.
  - destruct H as [H | [[k tx] [Hop Hk]]]; [discriminate|].
    cbn in Hk. subst k. rewrite Hop.
    destruct lh; run; cbn [is_a kind ExcKind_eq_dec]; run; frame;
      eexists; split; cbn; eauto 10.
  - destruct lh; run; frame; eexists; split; cbn; eauto 10.
Qed.

Lemma sweep_loop_run (w : World) (pids : list Z) (s : State) :
  let r := for_each pids (fun pid =>
    try_except
      (event (PsTerminate pid) ;;
       ps_call (ps_terminate w pid) ;;
       logging INFO (utf8 "已终止服务器进程 (PID: " ++ str_int pid ++ utf8 ")"))
      (fun e => Some (logging WARNING
         (utf8 "终止进程 " ++ str_int pid ++ utf8 " 时出错: " ++ text e)))) s in
  result r = Val tt /\ same_handles s (final r) /\ quiet (trace r).
Proof.
  revert s. induction pids as [|pid pids IH]; intros s.
  - cbn. frame.
  - cbn [for_each]. cbv zeta.
    match goal with
    | |- context [bind ?m ?k s] =>
        assert (Hm : result (m s) = Val tt /\ same_handles s (final (m s))
                     /\ quiet (trace (m s)))
    end.
    { destruct s as [sp cp sl cl pm lh pc]. run.
      destruct (ps_terminate w pid) as [[e msg]|]; destruct lh; run; frame. }
    destruct Hm as [Hr [Hs Hq]].
    rewrite (bind_val _ _ _ Hr). cbn [result final trace].
    destruct (IH (final (try_except
      (event (PsTerminate pid) ;;
       ps_call (ps_terminate w pid) ;;
       logging INFO (utf8 "已终止服务器进程 (PID: " ++ str_int pid ++ utf8 ")"))
      (fun e => Some (logging WARNING
         (utf8 "终止进程 " ++ str_int pid ++ utf8 " 时出错: " ++ text e))) s)))
      as [IHr [IHs IHq]].
    split; [exact IHr|]. split.
    + eapply same_handles_trans; eassumption.
    + apply quiet_app; assumption.
Qed.

Lemma sweep_existing_run (w : World) (s : State) :
  result (sweep_existing w s) = Val tt
  /\ same_handles s (final (sweep_existing w s))
  /\ quiet (trace (sweep_existing w s)).
Proof.
  unfold sweep_existing.
  destruct (map fst _) as [|pid pids] eqn:E.
  - cbn. frame.
  - assert (Hl : forall m, result (logging INFO m s) = Val tt
                 /\ same_handles s (final (logging INFO m s))
                 /\ quiet (trace (logging INFO m s))).
    { intros m. rewrite logging_run. destruct s as [sp cp sl cl pm lh pc].
      destruct lh; frame. }
    match goal with |- context [logging INFO ?m] => destruct (Hl m) as [Hr [Hs Hq]] end.
    rewrite (bind_val _ _ _ Hr). cbn [result final trace].
    match goal with
    | |- context [for_each _ _ ?s1] =>
        destruct (sweep_loop_run w (pid :: pids) s1) as [Lr [Ls Lq]]
    end.
    split; [exact Lr|]. split.
    + eapply same_handles_trans; eassumption.
    + apply quiet_app; assumption.
Qed.

Lemma launch_server_ok (w : World) (s : State) (p : Popen) :
  popen w (popen_calls s) Server (server_exe_path w) = inr p ->
  result (launch_server w s) = Val tt
  /\ server_process (final (launch_server w s)) = Some p
  /\ client_process (final (launch_server w s)) = client_process s
  /\ spawns Server (trace (launch_server w s)) = 1
  /\ spawns Client (trace (launch_server w s)) = 0.
Proof.
  intros Hp. destruct s as [sp cp sl cl pm lh pc]. cbn in Hp.
  unfold launch_server, Popen_. unfold server_exe_path in Hp.
  destruct lh; run; rewrite Hp; run; auto.
Qed.

Lemma launch_server_fail (w : World) (s : State) (e : Exc) :
  popen w (popen_calls s) Server (server_exe_path w) = inl e ->
  result (launch_server w s) = Returned
  /\ server_process (final (launch_server w s)) = server_process s
  /\ client_process (final (launch_server w s)) = client_process s
  /\ In (Log ERROR (utf8 "启动服务器进程失败: " ++ text e)) (trace (launch_server w s))
  /\ In (Emit Server (utf8 "启动服务器进程失败: " ++ text e)) (trace (launch_server w s)).
Proof.
  intros Hp. destruct s as [sp cp sl cl pm lh pc]. cbn in Hp.
  unfold launch_server, Popen_. unfold server_exe_path in Hp.
  destruct lh; run; rewrite Hp; run; cbn; auto 15.
Qed.

Lemma read_and_wait_run (w : World) (s : State) (p : Popen) :
  server_process s = Some p ->
  read_and_wait w s =
  {| result := if proc_exits w p then Val tt else Blocked;
     final := s;
     trace := [StartReader Server p Stdout; StartReader Server p Stderr;
               WaitFor Server p None] |}.
Proof.
  intros Hp. destruct s as [sp cp sl cl pm lh pc]. cbn in Hp. subst sp.
  unfold read_and_wait. run. destruct (proc_exits w p); reflexivity.
Qed.

Lemma quiet_no_spawns (who : Worker) (t : list Event) :
  quiet t -> spawns who t = 0.
Proof.
  unfold spawns, quiet. induction 1 as [|e t He _ IH]; [reflexivity|].
  destruct e; try discriminate He; destruct who; exact IH.
Qed.

(** C6: when the server executable does not exist, or opening it raises
    [PermissionError], [start_core_server] returns normally after reporting
    the failure (an error record in the log and the same message on the
    server's emitter); it calls [subprocess.Popen] for neither worker,
    starts no reader, and leaves [server_process] and [client_process] as
    they were. *)
Theorem start_core_server_missing_executable (w : World) (s : State) :
  path_exists w (server_exe_path w) = false
  \/ (exists e, open_rb w (server_exe_path w) = Some e /\ kind e = PermissionError) ->
  result (start_core_server w s) = Val tt
  /\ reports_failure (trace (start_core_server w s))
  /\ quiet (trace (start_core_server w s))
  /\ spawns Server (trace (start_core_server w s)) = 0
  /\ spawns Client (trace (start_core_server w s)) = 0
  /\ server_process (final (start_core_server w s)) = server_process s
  /\ client_process (final (start_core_server w s)) = client_process s
  /\ popen_calls (final (start_core_server w s)) = popen_calls s.
Proof.
  intros H. destruct (@check_executable_fail w s H) as [Hr [Hs [Hq Hf]]].
  unfold start_core_server. rewrite def_run, (bind_returned _ _ _ Hr).
  cbn [result final trace].
  destruct Hs as [H1 [H2 [_ [_ [_ H6]]]]].
  repeat split; auto using quiet_no_spawns.
Qed.

Lemma start_core_server_missing_executable_witness :
  result (start_core_server Sample.no_executable init) = Val tt
  /\ spawns Server (trace (start_core_server Sample.no_executable init)) = 0.
Proof.
  destruct (@start_core_server_missing_executable Sample.no_executable init)
    as [H1 [_ [_ [H2 _]]]]; [left; reflexivity|].
  split; assumption.
Defined.

Lemma start_core_server_to_launch (w : World) (s : State) :
  path_exists w (server_exe_path w) = true ->
  open_rb w (server_exe_path w) = None ->
  exists s1 t1,
    same_handles s s1 /\ quiet t1
    /\ result (start_core_server w s)
       = match result ((launch_server w ;; read_and_wait w) s1) with
         | Returned => Val tt
         | r => r
         end
    /\ final (start_core_server w s) = final ((launch_server w ;; read_and_wait w) s1)
    /\ trace (start_core_server w s)
       = t1 ++ trace ((launch_server w ;; read_and_wait w) s1).
Proof.
  intros Hex Hop.
  destruct (@check_executable_ok w s Hex Hop) as [Hr1 [Hs1 Hq1]].
  destruct (sweep_existing_run w (final (check_executable w s))) as [Hr2 [Hs2 Hq2]].
  exists (final (sweep_existing w (final (check_executable w s)))).
  exists (trace (check_executable w s)
          ++ trace (sweep_existing w (final (check_executable w s)))).
  split; [eapply same_handles_trans; eassumption|].
  split; [apply quiet_app; assumption|].
  unfold start_core_server. rewrite def_run.
  rewrite (bind_val _ _ _ Hr1). cbn [result final trace].
  rewrite (bind_val _ _ _ Hr2). cbn [result final trace].
  rewrite app_assoc. auto.
Qed.

(** C2 (as amended): [start_core_server] is blocking.  When the executable
    is there and the spawn succeeds, the function starts the two readers and
    then calls [wait()] on the primary without a timeout: these are the
    last three events of its run, and it returns if and only if the primary
    process exits. *)
Theorem start_core_server_waits_for_primary (w : World) (s : State) (p : Popen) :
  path_exists w (server_exe_path w) = true ->
  open_rb w (server_exe_path w) = None ->
  popen w (popen_calls s) Server (server_exe_path w) = inr p ->
  result (start_core_server w s) = (if proc_exits w p then Val tt else Blocked)
  /\ (exists t, trace (start_core_server w s)
                = t ++ [StartReader Server p Stdout; StartReader Server p Stderr;
                        WaitFor Server p None])
  /\ server_process (final (start_core_server w s)) = Some p.
Proof.
  intros Hex Hop Hp.
  destruct (@start_core_server_to_launch w s Hex Hop)
    as [s1 [t1 [Hs [_ [Hr [Hf Ht]]]]]].
  assert (Hp1 : popen w (popen_calls s1) Server (server_exe_path w) = inr p).
  { destruct Hs as [_ [_ [_ [_ [_ ->]]]]]. exact Hp. }
  destruct (@launch_server_ok w s1 p Hp1) as [Lr [Lp _]].
  rewrite (bind_val _ _ _ Lr) in Hr, Hf, Ht.
  rewrite (@read_and_wait_run w _ p Lp) in Hr, Hf, Ht.
  cbn [result final trace] in Hr, Hf, Ht.
  rewrite Hr, Hf, Ht. split; [|split].
  - destruct (proc_exits w p); reflexivity.
  - exists (t1 ++ trace (launch_server w s1)). now rewrite app_assoc.
  - exact Lp.
Qed.

Lemma start_core_server_waits_witness :
  result (start_core_server Sample.calm init) = Blocked.
Proof.
  apply (@start_core_server_waits_for_primary Sample.calm init {| pid := 100 |});
    reflexivity.
Defined.

(** C2, as stated, fails: with a primary that keeps running,
    [start_core_server] never returns to its caller; the last thing it does
    is the [wait()] on the primary. *)
Lemma start_core_server_blocks_counterexample :
  let r := start_core_server Sample.calm init in
  result r = Blocked
  /\ result r <> Val tt
  /\ last (trace r) EventAccept = WaitFor Server {| pid := 100 |} None.
Proof. vm_compute. repeat split; discriminate. Qed.

(** C9: [start_client] consults neither [os.path.exists] nor [open] and
    has no handler around its [subprocess.Popen]: when that call raises, the
    exception leaves [start_client], nothing is logged or emitted and
    [client_process] is not set.  The primary's path differs: a spawn
    failure there is caught and reported, and [start_core_server] returns. *)
Theorem start_client_spawn_unguarded (w : World) (s : State) (e : Exc) :
  popen w (popen_calls s) Client (client_exe_path w) = inl e ->
  (result (start_client w s) = Raised e
   /\ trace (start_client w s) = [Spawn Client (client_exe_path w)]
   /\ client_process (final (start_client w s)) = client_process s)
  /\ (forall ex op, start_client (with_fs w ex op) s = start_client w s)
  /\ (forall s0 : State,
        path_exists w (server_exe_path w) = true ->
        open_rb w (server_exe_path w) = None ->
        popen w (popen_calls s0) Server (server_exe_path w) = inl e ->
        result (start_core_server w s0) = Val tt
        /\ reports_failure (trace (start_core_server w s0))).
Proof.
  intros Hp. split; [|split].
  - destruct s as [sp cp sl cl pm lh pc]. cbn in Hp.
    unfold start_client, Popen_. run. rewrite Hp. run. auto.
  - reflexivity.
  - intros s0 Hex Hop Hp0.
    destruct (@start_core_server_to_launch w s0 Hex Hop)
      as [s1 [t1 [Hs [_ [Hr [_ Ht]]]]]].
    assert (Hp1 : popen w (popen_calls s1) Server (server_exe_path w) = inl e).
    { destruct Hs as [_ [_ [_ [_ [_ ->]]]]]. exact Hp0. }
    destruct (@launch_server_fail w s1 e Hp1) as [Lr [_ [_ [L1 L2]]]].
    rewrite (bind_returned _ _ _ Lr) in Hr, Ht.
    cbn [result trace] in Hr, Ht. rewrite Hr, Ht.
    split; [reflexivity|].
    exists (utf8 "启动服务器进程失败: " ++ text e).
    split; apply in_or_app; right; assumption.
Qed.

Lemma start_client_spawn_unguarded_witness :
  result (start_client Sample.no_client init) = Raised Sample.file_not_found
  /\ trace (start_client Sample.no_client init)
     = [Spawn Client (client_exe_path Sample.no_client)].
Proof.
  destruct (@start_client_spawn_unguarded Sample.no_client init Sample.file_not_found)
    as [[H1 [H2 _]] _]; [reflexivity|].
  split; assumption.
Defined.

(** ** closeEvent, block by block *)

Lemma close_guard_proceeds (ev : CloseEvent) (s : State) :
  proceeds ev = true ->
  close_guard ev s = {| result := Val tt; final := s; trace := [] |}.
Proof.
  unfold proceeds, close_guard.
  destruct (spontaneous ev) as [[e | []] |]; intros H;
    try discriminate H; run; rewrite ?H; reflexivity.
Qed.

Lemma terminate_process_absent (w : World) (who : Worker) (s : State) :
  process_of who s = None ->
  terminate_process w who s = {| result := Val tt; final := s; trace := [] |}.
Proof.
  intros H. unfold terminate_process, bind, get. rewrite H. reflexivity.
Qed.

Ltac crush_block :=
  repeat match goal with
         | |- _ /\ _ => split
         | |- Forall _ (_ :: _) => constructor
         | |- Forall _ [] => constructor
         | |- exists _, _ => eexists
         end;
  cbn; eauto; try discriminate; try congruence.

Lemma terminate_process_present (w : World) (who : Worker) (s : State) (p : Popen) :
  process_of who s = Some p ->
  terminate_process w who s =
  try_except
    (event (Terminate who p) ;;
     call (proc_terminate w p) ;;
     event (WaitFor who p (Some 5%Z)) ;;
     call (proc_wait5 w p))
    (fun e =>
       if is_a TimeoutExpired e
       then Some (event (Kill who p) ;; call (proc_kill w p))
       else Some (logging ERROR (terminate_error who ++ text e))) s.
Proof.
  intros H. unfold terminate_process, bind at 1, get. rewrite H.
  destruct (try_except _ _ s) as [r s1 t1]. reflexivity.
Qed.

Lemma terminate_process_run (w : World) (who : Worker) (s : State) (p : Popen) :
  process_of who s = Some p ->
  let r := terminate_process w who s in
  same_handles s (final r)
  /\ (exists rest, trace r = Terminate who p :: rest)
  /\ Forall (about_worker who) (trace r)
  /\ Forall (bounded_escalation w) (trace r)
  /\ (result r = Val tt
      \/ exists x k, graceful w p = Some x /\ kind x = TimeoutExpired
                     /\ proc_kill w p = Some k /\ result r = Raised k
                     /\ Forall (fun e => is_fault e = false) (trace r))
  /\ (already_terminated w p -> result r = Val tt)
  /\ (forall x, graceful w p = Some x -> kind x <> TimeoutExpired ->
        In (Log ERROR (terminate_error who ++ text x)) (trace r)).
Proof.
  intros Hp. rewrite (terminate_process_present w who s Hp). cbv zeta. clear Hp.
  destruct s as [sp cp sl cl pm lh pc].
  assert (Hx : forall x, is_a TimeoutExpired x = true <-> kind x = TimeoutExpired).
  { intros x. unfold is_a. destruct (ExcKind_eq_dec _ _); split; congruence. }
  unfold already_terminated.
  destruct (graceful w p) as [x |] eqn:Hg; unfold graceful in Hg.
  - assert (Hb : (event (Terminate who p) ;; call (proc_terminate w p) ;;
                  event (WaitFor who p (Some 5%Z)) ;; call (proc_wait5 w p))
                   {| server_process := sp; client_process := cp; server_log := sl;
                      client_log := cl; process_monitor := pm; log_handler := lh;
                      popen_calls := pc |}
                 = {| result := Raised x;
                      final := {| server_process := sp; client_process := cp;
                                  server_log := sl; client_log := cl;
                                  process_monitor := pm; log_handler := lh;
                                  popen_calls := pc |};
                      trace := Terminate who p ::
                               match proc_terminate w p with
                               | Some _ => []
                               | None => [WaitFor who p (Some 5%Z)]
                               end |}).
    { run. destruct (proc_terminate w p); [injection Hg as ->; reflexivity|].
      run. rewrite Hg. reflexivity. }
    unfold try_except. rewrite Hb. clear Hb.
    destruct (is_a TimeoutExpired x) eqn:Ek.
    + apply Hx in Ek.
      assert (Hq : Forall (bounded_escalation w)
                     (Terminate who p ::
                      match proc_terminate w p with
                      | Some _ => []
                      | None => [WaitFor who p (Some 5%Z)]
                      end ++ [Kill who p])).
      { constructor; [exact I|]. apply Forall_app. split.
        - destruct (proc_terminate w p); repeat constructor.
        - repeat constructor. cbn. exists x. unfold graceful. auto. }
      assert (Ha : Forall (about_worker who)
                     (Terminate who p ::
                      match proc_terminate w p with
                      | Some _ => []
                      | None => [WaitFor who p (Some 5%Z)]
                      end ++ [Kill who p])).
      { constructor; [reflexivity|]. apply Forall_app. split.
        - destruct (proc_terminate w p); repeat constructor.
        - repeat constructor. }
      assert (Hf : Forall (fun e => is_fault e = false)
                     (Terminate who p ::
                      match proc_terminate w p with
                      | Some _ => []
                      | None => [WaitFor who p (Some 5%Z)]
                      end ++ [Kill who p])).
      { constructor; [reflexivity|]. apply Forall_app. split.
        - destruct (proc_terminate w p); repeat constructor.
        - repeat constructor. }
      run. destruct (proc_kill w p) as [k |] eqn:Hk; run;
        rewrite ?app_nil_r;
        (split; [apply same_handles_refl|]);
        (split; [eexists; reflexivity|]);
        (split; [exact Ha|]); (split; [exact Hq|]).
      * split; [right; exists x, k; auto 10|].
        split; [intros H; exfalso; exact (H x eq_refl Ek)|].
        intros y Hy. injection Hy as <-. contradiction.
      * split; [left; reflexivity|].
        split; [reflexivity|].
        intros y Hy. injection Hy as <-. contradiction.
    + assert (Ek' : kind x <> TimeoutExpired).
      { intros H. apply Hx in H. congruence. }
      rewrite logging_run. cbn [result final trace].
      split; [destruct lh; unfold same_handles; cbn; auto 10|].
      split; [eexists; reflexivity|].
      split.
      { constructor; [reflexivity|]. apply Forall_app. split.
        - destruct (proc_terminate w p); repeat constructor.
        - repeat constructor. }
      split.
      { constructor; [exact I|]. apply Forall_app. split.
        - destruct (proc_terminate w p); repeat constructor.
        - repeat constructor. }
      split; [left; reflexivity|].
      split; [reflexivity|].
      intros y Hy _. injection Hy as <-.
      right. apply in_or_app. right. left. reflexivity.
  - assert (Ht : proc_terminate w p = None /\ proc_wait5 w p = None).
    { destruct (proc_terminate w p); [discriminate | auto]. }
    destruct Ht as [Ht Hw]. unfold try_except. run. rewrite Ht. run. rewrite Hw.
    split; [apply same_handles_refl|].
    split; [eexists; reflexivity|].
    split; [repeat constructor|].
    split; [repeat constructor|].
    split; [left; reflexivity|].
    split; [reflexivity|].
    intros y Hy. discriminate.
Qed.

Lemma harmless_bounded (w : World) (t : list Event) :
  Forall harmless t -> Forall (bounded_escalation w) t.
Proof.
  apply Forall_impl. intros e [H _]. destruct e; try discriminate H; exact I.
Qed.

Lemma is_psutil_error_ps_exc (e : PsutilError) (msg : pystr) :
  is_psutil_error (ps_exc e msg) = true.
Proof. destruct e; reflexivity. Qed.

Lemma close_sweep_loop (w : World) (procs : list (Z * pystr)) (s : State) :
  let r := for_each procs (fun proc =>
    try_except
      (if eqb (snd proc) server_exe_name then
         event (PsTerminate (fst proc)) ;;
         ps_call (ps_terminate w (fst proc)) ;;
         logging INFO (utf8 "终止已存在的start_server.exe进程 (PID: "
                         ++ str_int (fst proc) ++ utf8 ")")
       else ret tt)
      (fun e => if is_psutil_error e then Some (ret tt) else None)) s in
  result r = Val tt /\ same_handles s (final r) /\ Forall harmless (trace r)
  /\ ((forall proc, In proc procs -> eqb (snd proc) server_exe_name = false) ->
      trace r = [] /\ final r = s).
Proof.
  revert s. induction procs as [|proc procs IH]; intros s.
  - cbn. unfold same_handles. auto 10.
  - cbn [for_each]. cbv zeta.
    match goal with
    | |- context [bind ?m ?k s] =>
        assert (Hm : result (m s) = Val tt /\ same_handles s (final (m s))
                     /\ Forall harmless (trace (m s))
                     /\ (eqb (snd proc) server_exe_name = false ->
                         trace (m s) = [] /\ final (m s) = s))
    end.
    { destruct s as [sp cp sl cl pm lh pc].
      destruct (eqb (snd proc) server_exe_name).
      - destruct (ps_terminate w (fst proc)) as [[e msg] |];
          destruct lh; run; rewrite ?is_psutil_error_ps_exc; run;
          unfold same_handles, harmless; cbn;
          repeat split; auto; try discriminate; repeat constructor.
      - run. unfold same_handles. cbn. auto 10. }
    destruct Hm as [Hr [Hs [Hq Hn]]].
    rewrite (bind_val _ _ _ Hr). cbn [result final trace].
    match goal with
    | |- context [for_each procs ?body ?s1] =>
        destruct (IH s1) as [IHr [IHs [IHq IHn]]]
    end.
    split; [exact IHr|]. split; [eapply same_handles_trans; eassumption|].
    split; [apply Forall_app; auto|].
    intros Hall.
    destruct (Hn (Hall proc (or_introl eq_refl))) as [Ht Hf].
    rewrite Ht, Hf in *. cbn [app].
    apply IHn. intros q Hq'. apply Hall. right. exact Hq'.
Qed.

Lemma close_sweep_run (w : World) (s : State) :
  result (close_sweep w s) = Val tt
  /\ same_handles s (final (close_sweep w s))
  /\ Forall harmless (trace (close_sweep w s))
  /\ (no_orphans w -> trace (close_sweep w s) = [] /\ final (close_sweep w s) = s).
Proof. apply close_sweep_loop. Qed.

Lemma event_run (e : Event) (s : State) :
  event e s = {| result := Val tt; final := s; trace := [e] |}.
Proof. reflexivity. Qed.

Lemma bind_tame (w : World) (m k : Py unit) :
  tame w m -> tame w k -> tame w (m ;; k).
Proof.
  unfold tame, bind. intros Hm Hk s.
  destruct (Hm s) as [Hs Hq]. destruct (m s) as [[[]| |e|] s1 t1]; cbn in *; auto.
  destruct (Hk s1) as [Hs' Hq']. destruct (k s1) as [r s2 t2]. cbn in *.
  split; [eapply same_handles_trans; eassumption | apply Forall_app; auto].
Qed.

Lemma terminate_process_tame (w : World) (who : Worker) :
  tame w (terminate_process w who).
Proof.
  intros s. destruct (process_of who s) as [p |] eqn:Hp.
  - destruct (terminate_process_run w who s Hp) as [H1 [_ [_ [H2 _]]]]. auto.
  - rewrite (terminate_process_absent w who s Hp). cbn.
    split; [apply same_handles_refl | constructor].
Qed.

Lemma shutdown_workers_tame (w : World) : tame w (shutdown_workers w).
Proof.
  unfold shutdown_workers.
  repeat apply bind_tame; try apply terminate_process_tame.
  - intros s. destruct (close_sweep_run w s) as [_ [H1 [H2 _]]].
    split; [exact H1 | now apply harmless_bounded].
  - intros s. cbn. split; [apply same_handles_refl | repeat constructor].
Qed.

(** Past its guard, [closeEvent] stops the timer and runs the shutdown. *)
Lemma closeEvent_proceeds (w : World) (ev : CloseEvent) (s : State) :
  proceeds ev = true ->
  closeEvent w ev s =
  {| result := match result (shutdown_workers w (set_process_monitor false s)) with
               | Returned => Val tt
               | r => r
               end;
     final := final (shutdown_workers w (set_process_monitor false s));
     trace := MonitorStop
              :: trace (shutdown_workers w (set_process_monitor false s)) |}.
Proof.
  intros H. unfold closeEvent. rewrite def_run.
  rewrite (@bind_val _ _ (close_guard ev) _ s tt)
    by (rewrite (close_guard_proceeds ev s H); reflexivity).
  rewrite (close_guard_proceeds ev s H). cbn [result final trace app].
  rewrite (@bind_val _ _ (event MonitorStop) _ s tt) by reflexivity.
  cbn [result final trace app event].
  rewrite (@bind_val _ _ (modify (set_process_monitor false)) _ s tt) by reflexivity.
  cbn [result final trace app modify]. reflexivity.
Qed.

Lemma closeEvent_keeps_handles (w : World) (ev : CloseEvent) (s : State) :
  proceeds ev = true ->
  server_process (final (closeEvent w ev s)) = server_process s
  /\ client_process (final (closeEvent w ev s)) = client_process s
  /\ process_monitor (final (closeEvent w ev s)) = false
  /\ Forall (bounded_escalation w) (trace (closeEvent w ev s)).
Proof.
  intros H. rewrite (@closeEvent_proceeds w ev s H). cbn [final trace].
  destruct (shutdown_workers_tame w (set_process_monitor false s))
    as [[H1 [H2 [_ [H4 _]]]] Hq].
  rewrite H1, H2, H4. destruct s; cbn. repeat split; auto.
  constructor; [exact I | exact Hq].
Qed.

Lemma first_index_skip (P : Event -> bool) (t1 : list Event) (e : Event)
    (t2 : list Event) :
  Forall (fun x => P x = false) t1 -> P e = true ->
  first_index P (t1 ++ e :: t2) = Some (List.length t1).
Proof.
  intros H He. induction H as [|x t1 Hx _ IH]; cbn.
  - now rewrite He.
  - rewrite Hx, IH. reflexivity.
Qed.

Lemma bind_trace_prefix {A B} (m : Py A) (f : A -> Py B) (s : State) :
  exists t, trace (bind m f s) = trace (m s) ++ t.
Proof.
  unfold bind. destruct (m s) as [[a| |e|] s1 t1]; cbn;
    try (exists []; now rewrite app_nil_r).
  destruct (f a s1) as [r s2 t2]. cbn. eauto.
Qed.

Lemma about_server_not_client (t : list Event) :
  Forall (about_worker Server) t ->
  Forall (fun x => is_terminate Client x = false) t.
Proof.
  apply Forall_impl. intros e H.
  destruct e; cbn in *; try reflexivity; subst; try reflexivity; contradiction.
Qed.

(** C3, as stated, fails: with both workers tracked, the first
    [terminate()] of the secondary does not come before that of the
    primary. *)
Lemma closeEvent_order_counterexample :
  let t := trace (closeEvent Sample.calm Sample.close_request Sample.both_running) in
  exists i j,
    first_index (is_terminate Client) t = Some i
    /\ first_index (is_terminate Server) t = Some j
    /\ ~ i < j.
Proof. exists 3, 1. vm_compute. repeat split; try reflexivity. lia. Qed.

(** C8 (the code at the failing input): the primary ignores
    [terminate()], [wait(timeout=5)] raises [TimeoutExpired] and [kill()]
    is denied.  The error of [kill()] is raised inside the
    [except TimeoutExpired] clause, where nothing catches it: it leaves
    [closeEvent] unlogged, and the secondary is never terminated. *)
Theorem closeEvent_kill_error_aborts_shutdown :
  let r := closeEvent Sample.stubborn Sample.close_request Sample.both_running in
  result r = Raised Sample.access_denied
  /\ trace r = [MonitorStop; Terminate Server {| pid := 1 |};
                WaitFor Server {| pid := 1 |} (Some 5%Z);
                Kill Server {| pid := 1 |}]
  /\ first_index (is_terminate Client) (trace r) = None
  /\ first_index is_fault (trace r) = None.
Proof. vm_compute. auto. Qed.

Lemma terminate_process_gone (w : World) (who : Worker) (s : State) :
  (forall p, process_of who s = Some p -> already_terminated w p) ->
  result (terminate_process w who s) = Val tt
  /\ same_handles s (final (terminate_process w who s)).
Proof.
  intros H. destruct (process_of who s) as [p |] eqn:Hp.
  - destruct (@terminate_process_run w who s p Hp) as [H1 [_ [_ [_ [_ [H2 _]]]]]].
    split; [apply H2, H, eq_refl | exact H1].
  - rewrite (terminate_process_absent w who s Hp). cbn.
    split; [reflexivity | apply same_handles_refl].
Qed.

Lemma shutdown_workers_gone (w : World) (s : State) :
  (forall who p, process_of who s = Some p -> already_terminated w p) ->
  result (shutdown_workers w s) = Val tt.
Proof.
  intros H. unfold shutdown_workers.
  destruct (@terminate_process_gone w Server s (H Server)) as [Hr1 Hs1].
  rewrite (bind_val _ _ _ Hr1). cbn [result].
  set (s1 := final (terminate_process w Server s)) in *.
  destruct (@terminate_process_gone w Client s1) as [Hr2 Hs2].
  { intros p Hp. apply (H Client). cbn in *.
    destruct Hs1 as [_ [H2 _]]. now rewrite <- H2. }
  rewrite (bind_val _ _ _ Hr2). cbn [result].
  destruct (close_sweep_run w (final (terminate_process w Client s1))) as [Hr3 _].
  rewrite (bind_val _ _ _ Hr3). reflexivity.
Qed.

Lemma shutdown_workers_untracked (w : World) (s : State) :
  server_process s = None -> client_process s = None ->
  shutdown_workers w s =
  {| result := Val tt;
     final := final (close_sweep w s);
     trace := trace (close_sweep w s) ++ [EventAccept] |}.
Proof.
  intros Hs Hc. unfold shutdown_workers.
  assert (H1 := terminate_process_absent w Server s Hs).
  assert (H2 := terminate_process_absent w Client s Hc).
  rewrite (bind_val _ _ _ (a := tt)) by (rewrite H1; reflexivity).
  rewrite H1. cbn [result final trace app].
  rewrite (bind_val _ _ _ (a := tt)) by (rewrite H2; reflexivity).
  rewrite H2. cbn [result final trace app].
  rewrite (bind_val _ _ _ (proj1 (close_sweep_run w s))). reflexivity.
Qed.

(** ** The liveness check *)

Lemma exit_message_not_warning (who who' : Worker) (c c' : Z) :
  exit_message who' c' <> exit_warning who c.
Proof.
  intros H. apply (f_equal (hd 0%N)) in H.
  destruct who, who'; vm_compute in H; discriminate H.
Qed.

Lemma count_occ_snoc (l : list pystr) (x y : pystr) :
  count_occ pystr_eq_dec (l ++ [y]) x
  = count_occ pystr_eq_dec l x + (if pystr_eq_dec y x then 1 else 0).
Proof.
  rewrite count_occ_app. cbn. destruct (pystr_eq_dec y x); reflexivity.
Qed.

Ltac count_warnings :=
  unfold warnings; cbn [log_of server_log client_log];
  repeat rewrite count_occ_snoc;
  repeat match goal with
         | |- context [pystr_eq_dec (exit_warning ?a ?b) (exit_warning ?a ?b)] =>
             destruct (pystr_eq_dec (exit_warning a b) (exit_warning a b));
             [|congruence]
         | |- context [pystr_eq_dec (exit_message ?a ?b) (exit_warning ?c ?d)] =>
             destruct (pystr_eq_dec (exit_message a b) (exit_warning c d)) as [E|];
             [exfalso; exact (@exit_message_not_warning _ _ _ _ E)|]
         end;
  try lia.

(** One firing of the timer while worker [who] has exited with code [c]. *)
Lemma tick_step (w : World) (who : Worker) (p : Popen) (c : Z) (s : State) :
  process_of who s = Some p ->
  process_monitor s = true ->
  proc_poll w p = Some c ->
  c <> 0%Z ->
  result (tick w s) = Val tt
  /\ process_of who (final (tick w s)) = Some p
  /\ process_monitor (final (tick w s)) = true
  /\ warnings who c (final (tick w s)) = warnings who c s + 1
  /\ exists pre, log_of who (final (tick w s))
                 = log_of who s ++ pre ++ [exit_warning who c].
Proof.
  intros Hp Hm Hpoll Hc.
  apply Z.eqb_neq in Hc.
  destruct s as [sp cp sl cl pm lh pc]. cbn in Hp, Hm. subst pm.
  unfold tick, check_processes, check_process.
  destruct who; cbn in Hp; subst.
  - (* the server has exited *)
    destruct cp as [q |]; [destruct (proc_poll w q) as [c' |] eqn:Hq|];
      [destruct (c' =? 0)%Z eqn:Hc'| |];
      destruct lh; run; rewrite Hpoll; run; rewrite Hc; run;
      rewrite ?Hq; run; rewrite ?Hc'; run;
      (do 3 (split; [reflexivity|]));
      (split; [count_warnings | exists []; reflexivity]).
  - (* the client has exited *)
    destruct sp as [q |]; [destruct (proc_poll w q) as [c' |] eqn:Hq|];
      [destruct (c' =? 0)%Z eqn:Hc'| |];
      destruct lh; run; rewrite ?Hq; run; rewrite ?Hc'; run;
      rewrite Hpoll; run; rewrite Hc; run;
      (do 3 (split; [reflexivity|]));
      (split; [count_warnings|]);
      cbn [log_of client_log]; rewrite <- ?app_assoc; cbn [app];
      match goal with
      | |- exists pre, ?l ++ [?x] = _ => exists []; reflexivity
      | |- exists pre, ?l ++ [?a; ?x] = _ => exists [a]; reflexivity
      | |- exists pre, ?l ++ [?a; ?b; ?x] = _ => exists [a; b]; reflexivity
      end.
Qed.

(** C10: the liveness check keeps no record of what it has reported.  At
    every firing of the timer at which a tracked worker has exited with a
    non-zero code, while the timer is active, [check_processes] appends the
    warning line to that worker's log again: after [n] firings the log
    holds [n] more copies of it, and each firing leaves the warning as the
    last line of the log. *)
Theorem check_processes_reports_every_tick (w : World) (who : Worker)
    (p : Popen) (c : Z) (s : State) (n : nat) :
  process_of who s = Some p ->
  process_monitor s = true ->
  proc_poll w p = Some c ->
  c <> 0%Z ->
  result (ticks w n s) = Val tt
  /\ warnings who c (final (ticks w n s)) = warnings who c s + n
  /\ (exists pre, log_of who (final (tick w s))
                  = log_of who s ++ pre ++ [exit_warning who c]).
Proof.
  intros Hp Hm Hpoll Hc.
  split; [|split].
  - revert s Hp Hm. induction n as [|n IH]; intros s Hp Hm; [reflexivity|].
    destruct (@tick_step w who p c s Hp Hm Hpoll Hc) as [Hr [Hp' [Hm' _]]].
    cbn [ticks]. rewrite (bind_val _ _ _ Hr). cbn [result]. now apply IH.
  - revert s Hp Hm. induction n as [|n IH]; intros s Hp Hm.
    + cbn. lia.
    + destruct (@tick_step w who p c s Hp Hm Hpoll Hc) as [Hr [Hp' [Hm' [Hw _]]]].
      cbn [ticks]. rewrite (bind_val _ _ _ Hr). cbn [final].
      rewrite (IH _ Hp' Hm'), Hw. lia.
  - apply (@tick_step w who p c s Hp Hm Hpoll Hc).
Qed.

Lemma check_processes_reports_every_tick_witness :
  warnings Server 1 (final (ticks Sample.crashed 3 Sample.both_running))
  = warnings Server 1 Sample.both_running + 3.
Proof.
  apply (@check_processes_reports_every_tick Sample.crashed Server {| pid := 1 |}
           1%Z Sample.both_running 3); try reflexivity.
  discriminate.
Defined.

(** ** The orphan sweeps *)

Lemma ps_terminated_app (t1 t2 : list Event) :
  ps_terminated (t1 ++ t2) = ps_terminated t1 ++ ps_terminated t2.
Proof.
  induction t1 as [|e t1 IH]; [reflexivity|].
  destruct e; cbn; rewrite ?IH; reflexivity.
Qed.

Lemma log_count_app (lvl : Level) (t1 t2 : list Event) :
  log_count lvl (t1 ++ t2) = log_count lvl t1 + log_count lvl t2.
Proof. unfold log_count. now rewrite filter_app, length_app. Qed.

Lemma sweep_loop_trace (w : World) (pids : list Z) (s : State) :
  let r := for_each pids (fun pid =>
    try_except
      (event (PsTerminate pid) ;;
       ps_call (ps_terminate w pid) ;;
       logging INFO (utf8 "已终止服务器进程 (PID: " ++ str_int pid ++ utf8 ")"))
      (fun e => Some (logging WARNING
         (utf8 "终止进程 " ++ str_int pid ++ utf8 " 时出错: " ++ text e)))) s in
  ps_terminated (trace r) = pids
  /\ log_count WARNING (trace r) = List.length (filter (ps_fails w) pids)
  /\ log_count INFO (trace r)
     = List.length (filter (fun pid => negb (ps_fails w pid)) pids)
  /\ log_count ERROR (trace r) = 0.
Proof.
  revert s. induction pids as [|pid pids IH]; intros s.
  - cbn. auto.
  - cbn [for_each]. cbv zeta.
    match goal with
    | |- context [bind ?m ?k s] =>
        assert (Hm : result (m s) = Val tt
                     /\ ps_terminated (trace (m s)) = [pid]
                     /\ log_count WARNING (trace (m s))
                        = (if ps_fails w pid then 1 else 0)
                     /\ log_count INFO (trace (m s))
                        = (if ps_fails w pid then 0 else 1)
                     /\ log_count ERROR (trace (m s)) = 0)
    end.
    { destruct s as [sp cp sl cl pm lh pc]. unfold ps_fails.
      destruct (ps_terminate w pid) as [[e msg]|]; destruct lh; run; auto. }
    destruct Hm as [Hr [H1 [H2 [H3 H4]]]].
    rewrite (bind_val _ _ _ Hr). cbn [trace].
    match goal with
    | |- context [for_each pids ?body ?s1] =>
        destruct (IH s1) as [I1 [I2 [I3 I4]]]
    end.
    rewrite ps_terminated_app, !log_count_app, H1, H2, H3, H4, I1, I2, I3, I4.
    cbn [filter]. destruct (ps_fails w pid); cbn; auto.
Qed.

(** X1: the sweep of [start_core_server] sends a termination request to
    every process named [start_server.exe], in the order of the process
    table, and to no other; a request that fails is logged as a warning and
    the sweep goes on, so the sweep always runs to its end. *)
Theorem sweep_existing_terminates_every_orphan (w : World) (s : State) :
  result (sweep_existing w s) = Val tt
  /\ ps_terminated (trace (sweep_existing w s)) = server_pids w
  /\ log_count WARNING (trace (sweep_existing w s))
     = List.length (filter (ps_fails w) (server_pids w))
  /\ log_count INFO (trace (sweep_existing w s))
     = match server_pids w with
       | [] => 0
       | _ :: _ => S (List.length (filter (fun pid => negb (ps_fails w pid))
                                     (server_pids w)))
       end
  /\ log_count ERROR (trace (sweep_existing w s)) = 0.
Proof.
  split; [apply sweep_existing_run|].
  unfold sweep_existing, server_pids.
  destruct (map fst _) as [|pid pids] eqn:E; [cbn; auto|].
  rewrite (@bind_val _ _ (logging INFO _) _ s tt) by (rewrite logging_run; reflexivity).
  rewrite logging_run. cbn [trace final].
  match goal with
  | |- context [for_each _ _ ?s1] =>
      destruct (sweep_loop_trace w (pid :: pids) s1) as [H1 [H2 [H3 H4]]]
  end.
  cbv zeta in H1, H2, H3, H4.
  rewrite ps_terminated_app, !log_count_app, H1, H2, H3, H4.
  unfold log_count. cbn [ps_terminated filter is_log List.length app Nat.add].
  auto.
Qed.

Lemma close_sweep_loop_trace (w : World) (procs : list (Z * pystr)) (s : State) :
  let r := for_each procs (fun proc =>
    try_except
      (if eqb (snd proc) server_exe_name then
         event (PsTerminate (fst proc)) ;;
         ps_call (ps_terminate w (fst proc)) ;;
         logging INFO (utf8 "终止已存在的start_server.exe进程 (PID: "
                         ++ str_int (fst proc) ++ utf8 ")")
       else ret tt)
      (fun e => if is_psutil_error e then Some (ret tt) else None)) s in
  let pids := map fst (filter (fun proc => eqb (snd proc) server_exe_name) procs) in
  ps_terminated (trace r) = pids
  /\ log_count INFO (trace r)
     = List.length (filter (fun pid => negb (ps_fails w pid)) pids)
  /\ log_count WARNING (trace r) = 0
  /\ log_count ERROR (trace r) = 0.
Proof.
  revert s. induction procs as [|proc procs IH]; intros s.
  - cbn. auto.
  - cbn [for_each]. cbv zeta.
    match goal with
    | |- context [bind ?m ?k s] =>
        assert (Hm : result (m s) = Val tt
                     /\ ps_terminated (trace (m s))
                        = (if eqb (snd proc) server_exe_name then [fst proc] else [])
                     /\ log_count INFO (trace (m s))
                        = (if eqb (snd proc) server_exe_name
                           then if ps_fails w (fst proc) then 0 else 1
                           else 0)
                     /\ log_count WARNING (trace (m s)) = 0
                     /\ log_count ERROR (trace (m s)) = 0)
    end.
    { destruct s as [sp cp sl cl pm lh pc]. unfold ps_fails.
      destruct (eqb (snd proc) server_exe_name); [|run; auto].
      destruct (ps_terminate w (fst proc)) as [[e msg]|]; destruct lh; run;
        rewrite ?is_psutil_error_ps_exc; run; auto. }
    destruct Hm as [Hr [H1 [H2 [H3 H4]]]].
    rewrite (bind_val _ _ _ Hr). cbn [trace].
    match goal with
    | |- context [for_each procs ?body ?s1] =>
        destruct (IH s1) as [I1 [I2 [I3 I4]]]
    end.
    cbv zeta in I1, I2, I3, I4.
    rewrite ps_terminated_app, !log_count_app, H1, H2, H3, H4, I1, I2, I3, I4.
    cbn [filter map]. destruct (eqb (snd proc) server_exe_name); cbn [map filter app];
      [destruct (ps_fails w (fst proc))|]; cbn; auto.
Qed.

(** X2: the sweep at the end of [closeEvent] requests the termination of
    the same processes; here a request that fails is passed over in
    silence: nothing is logged for it, at any level. *)
Theorem close_sweep_terminates_every_orphan_silently (w : World) (s : State) :
  result (close_sweep w s) = Val tt
  /\ ps_terminated (trace (close_sweep w s)) = server_pids w
  /\ log_count INFO (trace (close_sweep w s))
     = List.length (filter (fun pid => negb (ps_fails w pid)) (server_pids w))
  /\ log_count WARNING (trace (close_sweep w s)) = 0
  /\ log_count ERROR (trace (close_sweep w s)) = 0.
Proof.
  split; [apply close_sweep_run|].
  apply (close_sweep_loop_trace w (process_iter w) s).
Qed.

(** ** start_core_server on any host *)

Lemma bind_spawns {A B} (who : Worker) (m : Py A) (f : A -> Py B) (s : State) :
  spawns who (trace (bind m f s))
  = spawns who (trace (m s))
    + match result (m s) with
      | Val a => spawns who (trace (f a (final (m s))))
      | _ => 0
      end.
Proof.
  unfold bind. destruct (m s) as [[a| |e|] s1 t1]; cbn; try lia.
  destruct (f a s1) as [r s2 t2]. cbn. apply spawns_app.
Qed.

Lemma bind_final_inv {A B X} (g : State -> X) (m : Py A) (f : A -> Py B) (s : State) :
  g (final (m s)) = g s ->
  (forall a s1, g (final (f a s1)) = g s1) ->
  g (final (bind m f s)) = g s.
Proof.
  unfold bind. intros Hm Hf. destruct (m s) as [[a| |e|] s1 t1]; cbn in *; auto.
  specialize (Hf a s1). destruct (f a s1) as [r s2 t2]. cbn in *. congruence.
Qed.

Lemma check_executable_quiet (w : World) (s : State) :
  same_handles s (final (check_executable w s))
  /\ quiet (trace (check_executable w s)).
Proof.
  destruct s as [sp cp sl cl pm lh pc]. unfold check_executable.
  destruct (path_exists w (server_exe_path w));
    [destruct (open_rb w (server_exe_path w)) as [[k tx]|]|];
    destruct lh; run;
    try (destruct (is_a PermissionError _); run); frame.
Qed.

Lemma launch_server_spawns (w : World) (s : State) :
  spawns Server (trace (launch_server w s)) = 1
  /\ spawns Client (trace (launch_server w s)) = 0
  /\ client_process (final (launch_server w s)) = client_process s
  /\ filter is_attach (trace (launch_server w s)) = []
  /\ (forall e, popen w (popen_calls s) Server (server_exe_path w) = inl e ->
        server_process (final (launch_server w s)) = server_process s).
Proof.
  destruct s as [sp cp sl cl pm lh pc]. unfold launch_server, Popen_, server_exe_path.
  destruct (popen w pc Server (path_join w (BASE_DIR w) server_exe_name)) eqn:Hp;
    destruct lh; run; rewrite ?Hp; run;
    (do 4 (split; [reflexivity|])); intros e' He'; cbn in He';
    first [discriminate He' | reflexivity].
Qed.

Lemma read_and_wait_spawns (w : World) (s : State) :
  spawns Server (trace (read_and_wait w s)) = 0
  /\ spawns Client (trace (read_and_wait w s)) = 0
  /\ final (read_and_wait w s) = s.
Proof.
  destruct s as [sp cp sl cl pm lh pc]. unfold read_and_wait.
  destruct sp as [p|]; run; [destruct (proc_exits w p)|]; auto.
Qed.

(** X3: on every host and from every state, [start_core_server] calls
    [subprocess.Popen] at most once, for the server, and never for the
    client; [client_process] is left as it was. *)
Theorem start_core_server_never_spawns_client (w : World) (s : State) :
  spawns Client (trace (start_core_server w s)) = 0
  /\ spawns Server (trace (start_core_server w s)) <= 1
  /\ client_process (final (start_core_server w s)) = client_process s.
Proof.
  unfold start_core_server. rewrite !def_run. cbn [trace final].
  destruct (check_executable_quiet w s) as [Hs1 Hq1].
  assert (Hsw : forall s1, spawns Server (trace (sweep_existing w s1)) = 0
                           /\ spawns Client (trace (sweep_existing w s1)) = 0
                           /\ client_process (final (sweep_existing w s1))
                              = client_process s1).
  { intros s1. destruct (sweep_existing_run w s1) as [_ [[_ [H2 _]] Hq]].
    auto using quiet_no_spawns. }
  assert (Htail : forall who s1,
            spawns who (trace ((sweep_existing w ;; launch_server w ;;
                                read_and_wait w) s1))
            <= match who with Server => 1 | Client => 0 end).
  { intros who s1. rewrite bind_spawns.
    destruct (Hsw s1) as [A1 [A2 _]].
    destruct (result (sweep_existing w s1)) as [[]| | |];
      [|destruct who; lia..].
    cbv beta iota. rewrite bind_spawns.
    destruct (launch_server_spawns w (final (sweep_existing w s1)))
      as [B1 [B2 _]].
    destruct (result (launch_server w (final (sweep_existing w s1)))) as [[]| | |];
      [|destruct who; lia..].
    cbv beta iota.
    destruct (read_and_wait_spawns
                w (final (launch_server w (final (sweep_existing w s1)))))
      as [C1 [C2 _]].
    destruct who; lia. }
  split; [|split].
  - rewrite bind_spawns, (quiet_no_spawns Client Hq1).
    destruct (result (check_executable w s)) as [[]| | |]; auto.
    cbv beta iota.
    specialize (Htail Client (final (check_executable w s))).
    cbv beta iota in Htail. lia.
  - rewrite bind_spawns, (quiet_no_spawns Server Hq1).
    destruct (result (check_executable w s)) as [[]| | |]; auto.
    cbv beta iota.
    specialize (Htail Server (final (check_executable w s))).
    cbv beta iota in Htail. lia.
  - apply bind_final_inv; [apply Hs1|]. intros _ s1.
    apply bind_final_inv; [apply Hsw|]. intros _ s2.
    apply bind_final_inv; [apply launch_server_spawns|]. intros _ s3.
    now rewrite (proj2 (proj2 (read_and_wait_spawns w s3))).
Qed.

(** X4: when the spawn of the server raises, [start_core_server] starts
    no reader thread and waits for nothing, and [server_process] keeps the
    value it had, so a later [closeEvent] finds no primary to terminate. *)
Theorem start_core_server_failed_spawn_attaches_nothing (w : World) (s : State)
    (e : Exc) :
  path_exists w (server_exe_path w) = true ->
  open_rb w (server_exe_path w) = None ->
  popen w (popen_calls s) Server (server_exe_path w) = inl e ->
  filter is_attach (trace (start_core_server w s)) = []
  /\ server_process (final (start_core_server w s)) = server_process s
  /\ spawns Server (trace (start_core_server w s)) = 1.
Proof.
  intros Hex Hop Hp.
  destruct (@start_core_server_to_launch w s Hex Hop)
    as [s1 [t1 [Hs [Hq [_ [Hf Ht]]]]]].
  assert (Hp1 : popen w (popen_calls s1) Server (server_exe_path w) = inl e).
  { destruct Hs as [_ [_ [_ [_ [_ ->]]]]]. exact Hp. }
  destruct (@launch_server_fail w s1 e Hp1) as [Lr _].
  destruct (launch_server_spawns w s1) as [L1 [_ [_ [L4 L5]]]].
  rewrite (bind_returned _ _ _ Lr) in Hf, Ht. cbn [final trace] in Hf, Ht.
  rewrite Hf, Ht, (L5 e Hp1), filter_app, L4, spawns_app, L1,
    (quiet_no_spawns Server Hq).
  split; [|split; [apply Hs | reflexivity]].
  rewrite app_nil_r. clear - Hq. induction Hq as [|x t Hx _ IH]; [reflexivity|].
  cbn. destruct x; try discriminate Hx; exact IH.
Qed.

Lemma start_core_server_failed_spawn_witness :
  filter is_attach (trace (start_core_server Sample.no_spawn init)) = []
  /\ server_process (final (start_core_server Sample.no_spawn init)) = None.
Proof.
  destruct (@start_core_server_failed_spawn_attaches_nothing
              Sample.no_spawn init Sample.file_not_found)
    as [H1 [H2 _]]; try reflexivity.
  split; assumption.
Defined.

(** ** The liveness check on any host *)

(** X5: the liveness check only reports.  Whatever the processes have
    done, one firing of the timer returns normally, leaves both handles,
    the timer and the spawn count as they were, and every event of its run
    is an error record in the log: it never restarts, terminates or waits
    for a worker. *)
Theorem check_processes_only_reports (w : World) (s : State) :
  result (tick w s) = Val tt
  /\ server_process (final (tick w s)) = server_process s
  /\ client_process (final (tick w s)) = client_process s
  /\ process_monitor (final (tick w s)) = process_monitor s
  /\ popen_calls (final (tick w s)) = popen_calls s
  /\ Forall is_error_log (trace (tick w s)).
Proof.
  destruct s as [sp cp sl cl pm lh pc].
  unfold tick, check_processes, check_process, is_error_log.
  destruct pm; [|run; repeat split; constructor].
  destruct sp as [p |]; [destruct (proc_poll w p) as [c |] eqn:Hp;
                          [destruct (c =? 0)%Z eqn:Hc|]|];
    (destruct cp as [q |]; [destruct (proc_poll w q) as [c' |] eqn:Hq;
                             [destruct (c' =? 0)%Z eqn:Hc'|]|]);
    destruct lh; run; rewrite ?Hp; run; rewrite ?Hc; run;
    rewrite ?Hq; run; rewrite ?Hc'; run;
    (do 5 (split; [reflexivity|])); repeat constructor; eexists; reflexivity.
Qed.

(** X6: a tracked worker that has exited with code 0 is still logged at
    error level at every firing of the timer, but no warning line is added
    to its log. *)
Theorem check_processes_clean_exit_not_warned (w : World) (who : Worker)
    (p : Popen) (s : State) :
  process_of who s = Some p ->
  process_monitor s = true ->
  proc_poll w p = Some 0%Z ->
  In (Log ERROR (exit_message who 0)) (trace (tick w s))
  /\ (forall c, warnings who c (final (tick w s)) = warnings who c s)
  /\ (who = Server -> server_log (final (tick w s)) = server_log s).
Proof.
  intros Hp Hm Hpoll.
  destruct s as [sp cp sl cl pm lh pc]. cbn in Hp, Hm. subst pm.
  unfold tick, check_processes, check_process.
  destruct who; cbn in Hp; subst.
  - destruct cp as [q |]; [destruct (proc_poll w q) as [c' |] eqn:Hq|];
      [destruct (c' =? 0)%Z eqn:Hc'| |];
      destruct lh; run; rewrite Hpoll; run; change (0 =? 0)%Z with true; run;
      rewrite ?Hq; run; rewrite ?Hc'; run;
      (split; [cbn; auto|]); (split; [intros c; reflexivity | intros _; reflexivity]).
  - destruct sp as [q |]; [destruct (proc_poll w q) as [c' |] eqn:Hq|];
      [destruct (c' =? 0)%Z eqn:Hc'| |];
      destruct lh; run; rewrite ?Hq; run; rewrite ?Hc'; run;
      rewrite Hpoll; run; change (0 =? 0)%Z with true; run;
      (split; [cbn; auto|]); (split; [intros c; count_warnings | discriminate]).
Qed.

Lemma check_processes_clean_exit_witness :
  In (Log ERROR (exit_message Server 0))
     (trace (tick (with_control Sample.calm (fun _ => None) (fun _ => None)
                     (fun _ => Some 0%Z)) Sample.both_running)).
Proof.
  apply (@check_processes_clean_exit_not_warned
           (with_control Sample.calm (fun _ => None) (fun _ => None)
              (fun _ => Some 0%Z))
           Server {| pid := 1 |} Sample.both_running); reflexivity.
Defined.

(** X7: while every tracked worker is still running, a firing of the
    timer does nothing at all: no event, no change of state. *)
Theorem check_processes_idle_while_running (w : World) (s : State) :
  (forall who p, process_of who s = Some p -> proc_poll w p = None) ->
  tick w s = {| result := Val tt; final := s; trace := [] |}.
Proof.
  intros H. destruct s as [sp cp sl cl pm lh pc].
  unfold tick, check_processes, check_process.
  destruct pm; [|reflexivity].
  destruct sp as [p |]; destruct cp as [q |]; run;
    rewrite ?(H Server _ eq_refl); run; rewrite ?(H Client _ eq_refl); reflexivity.
Qed.

Lemma check_processes_idle_witness :
  tick Sample.calm Sample.both_running
  = {| result := Val tt; final := Sample.both_running; trace := [] |}.
Proof.
  apply check_processes_idle_while_running. intros who p _. reflexivity.
Defined.

Lemma ticks_stopped (w : World) (n : nat) (s : State) :
  process_monitor s = false ->
  ticks w n s = {| result := Val tt; final := s; trace := [] |}.
Proof.
  intros H. induction n as [|n IH]; [reflexivity|].
  assert (Ht : tick w s = {| result := Val tt; final := s; trace := [] |}).
  { destruct s as [sp cp sl cl pm lh pc]. cbn in H. subst pm. reflexivity. }
  cbn [ticks]. rewrite (@bind_val _ _ (tick w) _ s tt) by (rewrite Ht; reflexivity).
  rewrite Ht. cbn [result final trace]. rewrite IH. reflexivity.
Qed.

(** X8: once [closeEvent] has gone past its guard, the timer is stopped:
    no later firing reports anything, on any host, so the exits caused by
    the shutdown itself are never reported as crashes. *)
Theorem closeEvent_silences_liveness_check (w w' : World) (ev : CloseEvent)
    (s : State) (n : nat) :
  proceeds ev = true ->
  ticks w' n (final (closeEvent w ev s))
  = {| result := Val tt; final := final (closeEvent w ev s); trace := [] |}.
Proof.
  intros H. apply ticks_stopped.
  apply (@closeEvent_keeps_handles w ev s H).
Qed.

Lemma closeEvent_silences_witness :
  ticks Sample.crashed 3
    (final (closeEvent Sample.calm Sample.close_request Sample.both_running))
  = {| result := Val tt;
       final := final (closeEvent Sample.calm Sample.close_request
                         Sample.both_running);
       trace := [] |}.
Proof.
  apply (@closeEvent_silences_liveness_check Sample.calm Sample.crashed
           Sample.close_request Sample.both_running 3).
  reflexivity.
Defined.

(** X9: a spontaneous close event (the window manager's close button)
    only hides the window: the event is ignored, no worker is touched, the
    timer keeps running and the state is unchanged. *)
Theorem closeEvent_spontaneous_only_hides (w : World) (s : State) :
  closeEvent w {| spontaneous := Some (inr true) |} s
  = {| result := Val tt; final := s; trace := [EventIgnore; Hide] |}.
Proof. reflexivity. Qed.

(** ** The outcome of closeEvent *)

Lemma is_a_kind (K : ExcKind) (x : Exc) : is_a K x = true <-> kind x = K.
Proof. unfold is_a. destruct (ExcKind_eq_dec (kind x) K); split; congruence. Qed.

Lemma graceful_attempt_raises (w : World) (who : Worker) (p : Popen) (x : Exc)
    (s : State) :
  graceful w p = Some x ->
  result ((event (Terminate who p) ;; call (proc_terminate w p) ;;
           event (WaitFor who p (Some 5%Z)) ;; call (proc_wait5 w p)) s)
  = Raised x.
Proof.
  unfold graceful. intros H. destruct s as [sp cp sl cl pm lh pc]. run.
  destruct (proc_terminate w p); [injection H as ->; reflexivity|].
  run. rewrite H. reflexivity.
Qed.

Lemma terminate_process_raises (w : World) (who : Worker) (s : State) (p : Popen) :
  process_of who s = Some p ->
  kill_fails w p ->
  exists k, result (terminate_process w who s) = Raised k.
Proof.
  intros Hp [x [k [Hg [Hk Hkill]]]].
  rewrite (terminate_process_present w who s Hp).
  assert (Hb := @graceful_attempt_raises w who p x s Hg).
  apply is_a_kind in Hk.
  unfold try_except.
  destruct ((event (Terminate who p) ;; call (proc_terminate w p) ;;
             event (WaitFor who p (Some 5%Z)) ;; call (proc_wait5 w p)) s)
    as [r s1 t1].
  cbn [result] in Hb. subst r. rewrite Hk.
  exists k. destruct s1 as [sp cp sl cl pm lh pc]. run. rewrite Hkill. reflexivity.
Qed.

Lemma terminate_process_completes (w : World) (who : Worker) (s : State) :
  (forall p, process_of who s = Some p -> ~ kill_fails w p) ->
  result (terminate_process w who s) = Val tt.
Proof.
  intros H. destruct (process_of who s) as [p |] eqn:Hp.
  - destruct (@terminate_process_run w who s p Hp)
      as [_ [_ [_ [_ [[Hv | [x [k [Hg [Hk [Hkill _]]]]]] _]]]]]; [exact Hv|].
    exfalso. apply (H p eq_refl). exists x, k. auto.
  - now rewrite (terminate_process_absent w who s Hp).
Qed.

Lemma terminate_process_outcomes (w : World) (who : Worker) (s : State) :
  result (terminate_process w who s) = Val tt
  \/ exists k, result (terminate_process w who s) = Raised k.
Proof.
  destruct (process_of who s) as [p |] eqn:Hp.
  - destruct (@terminate_process_run w who s p Hp)
      as [_ [_ [_ [_ [[Hv | [x [k [_ [_ [_ [Hk _]]]]]]] _]]]]]; eauto.
  - left. now rewrite (terminate_process_absent w who s Hp).
Qed.

(** X10: past its guard, [closeEvent] runs to completion exactly when no
    tracked worker both outlasts its five-second wait and then fails to be
    killed.  No other failure (of [terminate()], of [wait], of the sweep)
    can leave [closeEvent]; and a completed run ends with
    [event.accept()]. *)
Theorem closeEvent_completes_iff_no_kill_fails (w : World) (ev : CloseEvent)
    (s : State) :
  proceeds ev = true ->
  (result (closeEvent w ev s) = Val tt
   <-> (forall who p, process_of who s = Some p -> ~ kill_fails w p))
  /\ (result (closeEvent w ev s) = Val tt ->
      last (trace (closeEvent w ev s)) MonitorStop = EventAccept).
Proof.
  intros Hev. rewrite (@closeEvent_proceeds w ev s Hev). cbn [result trace].
  set (s1 := set_process_monitor false s).
  assert (Hproc : forall who, process_of who s1 = process_of who s)
    by (intros []; reflexivity).
  unfold shutdown_workers.
  destruct (terminate_process_tame w Server s1) as [[_ [Hc1 _]] _].
  destruct (terminate_process_outcomes w Server s1) as [Hr1 | [k Hr1]].
  - rewrite (bind_val _ _ _ Hr1). cbn [result trace].
    set (s2 := final (terminate_process w Server s1)) in *.
    destruct (terminate_process_outcomes w Client s2) as [Hr2 | [k Hr2]].
    + rewrite (bind_val _ _ _ Hr2). cbn [result trace].
      rewrite (bind_val _ _ _ (proj1 (close_sweep_run w _))). cbn [result trace].
      split; [split; [|reflexivity]|].
      * intros _ who p Hp Hk. rewrite <- Hproc in Hp.
        destruct who.
        -- destruct (@terminate_process_raises w Server s1 p Hp Hk) as [k Hk'].
           congruence.
        -- assert (Hp2 : process_of Client s2 = Some p) by (cbn in *; congruence).
           destruct (@terminate_process_raises w Client s2 p Hp2 Hk) as [k Hk'].
           congruence.
      * intros _. rewrite !app_assoc. cbn [event trace].
        rewrite app_comm_cons. apply last_last.
    + destruct (bind_stop (terminate_process w Client)
                  (fun _ => close_sweep w ;; event EventAccept) s2)
        as [_ [_ [_ [_ Hx]]]]; [rewrite Hr2; discriminate|].
      rewrite (Hx k Hr2). split; [split|]; try discriminate.
      intros H. exfalso.
      assert (Hv : result (terminate_process w Client s2) = Val tt).
      { apply terminate_process_completes. intros p Hp. apply (H Client).
        rewrite <- Hproc. cbn in *. congruence. }
      congruence.
  - destruct (bind_stop (terminate_process w Server)
                (fun _ => terminate_process w Client ;; close_sweep w ;;
                          event EventAccept) s1)
      as [_ [_ [_ [_ Hx]]]]; [rewrite Hr1; discriminate|].
    rewrite (Hx k Hr1). split; [split|]; try discriminate.
    intros H. exfalso.
    assert (Hv : result (terminate_process w Server s1) = Val tt).
    { apply terminate_process_completes. intros p Hp. apply (H Server).
      now rewrite <- Hproc. }
    congruence.
Qed.

Lemma closeEvent_completes_witness :
  result (closeEvent Sample.calm Sample.close_request Sample.both_running) = Val tt
  <-> (forall who p, process_of who Sample.both_running = Some p ->
         ~ kill_fails Sample.calm p).
Proof.
  apply (@closeEvent_completes_iff_no_kill_fails Sample.calm Sample.close_request
           Sample.both_running).
  reflexivity.
Defined.

(** X11: an error of [terminate()] or of [wait(timeout=5)] other than
    [TimeoutExpired] does not stop the shutdown: it is logged with the
    server's prefix, the server is not killed, and the client is terminated
    next. *)
Theorem closeEvent_logs_termination_error_and_goes_on (w : World)
    (ev : CloseEvent) (s : State) (ps pc : Popen) (x : Exc) :
  proceeds ev = true ->
  server_process s = Some ps ->
  client_process s = Some pc ->
  graceful w ps = Some x ->
  kind x <> TimeoutExpired ->
  In (Log ERROR (terminate_error Server ++ text x)) (trace (closeEvent w ev s))
  /\ In (Terminate Client pc) (trace (closeEvent w ev s))
  /\ ~ In (Kill Server ps) (trace (closeEvent w ev s)).
Proof.
  intros Hev Hs Hc Hg Hk.
  split; [|split].
  - rewrite (@closeEvent_proceeds w ev s Hev). cbn [trace]. right.
    unfold shutdown_workers.
    destruct (bind_trace_prefix (terminate_process w Server)
                (fun _ => terminate_process w Client ;; close_sweep w ;;
                          event EventAccept)
                (set_process_monitor false s)) as [t ->].
    apply in_or_app. left.
    assert (Hp : process_of Server (set_process_monitor false s) = Some ps)
      by exact Hs.
    apply (@terminate_process_run w Server _ ps Hp); assumption.
  - rewrite (@closeEvent_proceeds w ev s Hev). cbn [trace]. right.
    unfold shutdown_workers.
    set (s1 := set_process_monitor false s).
    assert (Hp : process_of Server s1 = Some ps) by exact Hs.
    destruct (@terminate_process_run w Server s1 ps Hp)
      as [[_ [Hc1 _]] [_ [_ [_ [_ [Hgone _]]]]]].
    assert (Hv : result (terminate_process w Server s1) = Val tt).
    { apply Hgone. intros y Hy. congruence. }
    rewrite (bind_val _ _ _ Hv). cbn [trace]. apply in_or_app. right.
    destruct (bind_trace_prefix (terminate_process w Client)
                (fun _ => close_sweep w ;; event EventAccept)
                (final (terminate_process w Server s1))) as [t ->].
    apply in_or_app. left.
    assert (Hp2 : process_of Client (final (terminate_process w Server s1)) = Some pc).
    { cbn [process_of]. rewrite Hc1. exact Hc. }
    destruct (@terminate_process_run w Client _ pc Hp2) as [_ [[rest ->] _]].
    left. reflexivity.
  - intros Hin.
    destruct (@closeEvent_keeps_handles w ev s Hev) as [_ [_ [_ Hq]]].
    rewrite Forall_forall in Hq. destruct (Hq _ Hin) as [y [Hy1 Hy2]].
    congruence.
Qed.

Lemma closeEvent_logs_termination_error_witness :
  In (Terminate Client {| pid := 2 |})
     (trace (closeEvent
               (with_control Sample.calm (fun _ => Some Sample.access_denied)
                  (fun _ => None) (fun _ => None))
               Sample.close_request Sample.both_running)).
Proof.
  apply (@closeEvent_logs_termination_error_and_goes_on
           (with_control Sample.calm (fun _ => Some Sample.access_denied)
              (fun _ => None) (fun _ => None))
           Sample.close_request Sample.both_running
           {| pid := 1 |} {| pid := 2 |} Sample.access_denied);
    try reflexivity.
  discriminate.
Defined.

(** ** Delivery to the server log *)

Lemma slot_server_log (w : World) (message : pystr) (s : State) :
  server_log (final (slot w (append_server_log w message) s))
  = server_log s ++ [message].
Proof.
  destruct s as [sp cp sl cl pm lh pc].
  unfold slot, append_server_log, start_client, Popen_, append_client_log,
    handle_exception.
  destruct (contains sentinel message); [|run; reflexivity].
  destruct (popen w pc Client (client_exe_path w)) eqn:Hp;
    destruct lh; run; rewrite Hp; run; reflexivity.
Qed.

(** X12: every line delivered on the server's channel is appended to the
    server log, in the order delivered, whether or not it carries the
    sentinel and whether or not the client can be started. *)
Theorem deliver_appends_every_line (w : World) (lines : list pystr) (s : State) :
  server_log (final (deliver w lines s)) = server_log s ++ lines.
Proof.
  revert s. unfold deliver.
  induction lines as [|m lines IH]; intros s; cbn [for_each].
  - unfold ret. cbn [final]. symmetry. apply app_nil_r.
  - rewrite (bind_val _ _ _ (proj1 (slot_append_server_log w m s))).
    cbn [final]. rewrite IH, slot_server_log, <- app_assoc. reflexivity.
Qed.

Lemma startswith_spec (s p : pystr) :
  startswith s p = true <-> exists post, s = p ++ post.
Proof.
  revert s. induction p as [|a p IH]; intros s.
  - destruct s; cbn; split; eauto.
  - destruct s as [|b s]; cbn.
    + split; [discriminate | intros [post H]; discriminate].
    + rewrite andb_true_iff, N.eqb_eq, IH. split.
      * intros [-> [post ->]]. eauto.
      * intros [post H]. injection H as -> ->. eauto.
Qed.

Lemma contains_spec (needle hay : pystr) :
  contains needle hay = true <-> exists pre post, hay = pre ++ needle ++ post.
Proof.
  induction hay as [|c hay IH]; cbn [contains].
  - rewrite orb_false_r, startswith_spec. split.
    + intros [post H]. exists [], post. exact H.
    + intros [pre [post H]]. destruct pre; [eauto | discriminate].
  - rewrite orb_true_iff, startswith_spec, IH. split.
    + intros [[post H] | [pre [post H]]].
      * exists [], post. exact H.
      * exists (c :: pre), post. cbn. now rewrite H.
    + intros [[|a pre] [post H]].
      * left. eauto.
      * right. injection H as _ H. eauto.
Qed.

(** X13: [append_server_log] starts the client exactly when the sentinel
    text occurs somewhere inside the message, possibly with other text
    before and after it. *)
Theorem append_server_log_fires_iff_sentinel_occurs (w : World)
    (message : pystr) (s : State) :
  ((exists pre post, message = pre ++ sentinel ++ post) ->
   spawns Client (trace (slot w (append_server_log w message) s)) = 1)
  /\ (~ (exists pre post, message = pre ++ sentinel ++ post) ->
      spawns Client (trace (slot w (append_server_log w message) s)) = 0).
Proof.
  destruct (slot_append_server_log w message s) as [_ H]. rewrite H.
  destruct (contains sentinel message) eqn:E.
  - split; [reflexivity|]. intros Hn. exfalso. apply Hn, contains_spec, E.
  - split; [|reflexivity]. intros Hy. apply contains_spec in Hy. congruence.
Qed.

Lemma append_server_log_fires_witness :
  spawns Client
    (trace (slot Sample.calm
              (append_server_log Sample.calm (utf8 "INFO " ++ sentinel ++ [10%N]))
              init)) = 1.
Proof.
  apply (@append_server_log_fires_iff_sentinel_occurs Sample.calm
           (utf8 "INFO " ++ sentinel ++ [10%N]) init).
  exists (utf8 "INFO "), [10%N]. reflexivity.
Defined.

(** X14: a successful [start_client] records the new process in
    [client_process], starts its two readers, puts its success line into
    the client log, makes sure the [LogHandler] is installed, and then
    fails to set the window icon: [ICON_PATH] is bound nowhere, so the
    [NameError] is logged as an error on every call and, through the
    handler, lands in the client log as well. *)
Theorem start_client_success (w : World) (s : State) (p : Popen) :
  popen w (popen_calls s) Client (client_exe_path w) = inr p ->
  result (start_client w s) = Val tt
  /\ client_process (final (start_client w s)) = Some p
  /\ server_process (final (start_client w s)) = server_process s
  /\ log_handler (final (start_client w s)) = true
  /\ trace (start_client w s)
     = [Spawn Client (client_exe_path w);
        StartReader Client p Stdout; StartReader Client p Stderr;
        Emit Client (utf8 "客户端启动成功，开始加载模型...");
        Log ERROR (utf8 "设置窗口图标失败：" ++ utf8 "name 'ICON_PATH' is not defined")]
  /\ client_log (final (start_client w s))
     = client_log s
       ++ [utf8 "客户端启动成功，开始加载模型...";
           utf8 "设置窗口图标失败：" ++ utf8 "name 'ICON_PATH' is not defined"].
Proof.
  intros Hp. destruct s as [sp cp sl cl pm lh pc]. cbn in Hp.
  unfold start_client, Popen_, append_client_log.
  destruct lh; run; rewrite Hp; run; rewrite <- ?app_assoc; auto 10.
Qed.

Lemma start_client_success_witness :
  client_process (final (start_client Sample.calm init)) = Some {| pid := 100 |}.
Proof.
  apply (@start_client_success Sample.calm init {| pid := 100 |}). reflexivity.
Defined.

(** X15: when the client cannot be spawned, the exception that leaves
    [start_client] inside the slot is handed to the exception hook: it is
    logged twice at error level, [client_process] stays as it was, and the
    event loop goes on. *)
Theorem slot_reports_failed_client_spawn (w : World) (message : pystr)
    (s : State) (e : Exc) :
  contains sentinel message = true ->
  popen w (popen_calls s) Client (client_exe_path w) = inl e ->
  result (slot w (append_server_log w message) s) = Val tt
  /\ logged ERROR (trace (slot w (append_server_log w message) s))
     = [utf8 "未捕获的异常:"; utf8 "异常堆栈跟踪:" ++ [10%N] ++ format_tb w e]
  /\ client_process (final (slot w (append_server_log w message) s))
     = client_process s.
Proof.
  intros Hc Hp. destruct s as [sp cp sl cl pm lh pc]. cbn in Hp.
  unfold slot, append_server_log, start_client, Popen_, append_client_log,
    handle_exception.
  rewrite Hc. destruct lh; run; rewrite Hp; run; auto.
Qed.

Lemma slot_reports_failed_client_spawn_witness :
  result (slot Sample.no_client (append_server_log Sample.no_client sentinel) init)
  = Val tt.
Proof.
  apply (@slot_reports_failed_client_spawn Sample.no_client sentinel init
           Sample.file_not_found); reflexivity.
Defined.

(** ** Readers and the log handler *)

Lemma read_loop_final (tag : pystr) (who : Worker) (ls : list pystr) (s : State) :
  Forall (fun l => l <> []) ls ->
  same_handles s (final (read_loop tag who (map Line ls) s))
  /\ client_log (final (read_loop tag who (map Line ls) s))
     = client_log s
       ++ (if log_handler s then map (fun l => tag ++ strip l) ls else []).
Proof.
  intros H. revert s. induction H as [|l ls Hl _ IH]; intros s.
  - cbn. split; [apply same_handles_refl|].
    destruct (log_handler s); now rewrite app_nil_r.
  - cbn [map read_loop].
    destruct (eqb l []) eqn:E; [apply eqb_eq in E; contradiction|].
    rewrite (bind_val _ _ _ (a := tt)) by (rewrite logging_run; reflexivity).
    rewrite logging_run. cbn [final].
    rewrite (bind_val _ _ _ (a := tt)) by reflexivity. cbn [final event].
    set (s1 := if log_handler s then client_log_append (tag ++ strip l) s else s).
    destruct (IH s1) as [Hs Hc]. rewrite Hc.
    assert (H1 : same_handles s s1 /\ log_handler s1 = log_handler s
                 /\ client_log s1
                    = client_log s ++ (if log_handler s then [tag ++ strip l] else [])).
    { subst s1. destruct s as [sp cp sl cl pm lh pc]. destruct lh; cbn;
        unfold same_handles; cbn; rewrite ?app_nil_r; auto 10. }
    destruct H1 as [Hs1 [Hh Hc1]]. rewrite Hh, Hc1.
    split; [eapply same_handles_trans; eassumption|].
    destruct (log_handler s); cbn [map]; now rewrite <- app_assoc.
Qed.

(** X16: once [start_client] has installed the [LogHandler], whatever a
    reader logs also lands in the client log widget: the server's reader
    adds one line, prefixed [[Core Server] ], per line it reads.  Before
    that the reader leaves the window's state alone. *)
Theorem read_output_feeds_client_log_through_handler (ls : list pystr) (s : State) :
  Forall (fun l => l <> []) ls ->
  (log_handler s = true ->
   client_log (final (read_output (map Line ls) s))
   = client_log s ++ map (fun l => utf8 "[Core Server] " ++ strip l) ls)
  /\ (log_handler s = false -> final (read_output (map Line ls) s) = s)
  /\ server_log (final (read_output (map Line ls) s)) = server_log s.
Proof.
  intros H. unfold read_output. rewrite def_run. cbn [final].
  destruct (read_loop_final (utf8 "[Core Server] ") Server s H)
    as [[H1 [H2 [H3 [H4 [H5 H6]]]]] Hc].
  split; [|split].
  - intros Hh. rewrite Hc, Hh. reflexivity.
  - intros Hh. rewrite Hh, app_nil_r in Hc.
    destruct (final (read_loop (utf8 "[Core Server] ") Server (map Line ls) s)).
    destruct s. cbn in *. congruence.
  - exact H3.
Qed.

Lemma read_output_feeds_client_log_witness :
  client_log (final (read_output (map Line sample_lines)
                       (final (start_client Sample.calm init))))
  = client_log (final (start_client Sample.calm init))
    ++ map (fun l => utf8 "[Core Server] " ++ strip l) sample_lines.
Proof.
  apply (@read_output_feeds_client_log_through_handler sample_lines
           (final (start_client Sample.calm init))).
  - repeat constructor; discriminate.
  - reflexivity.
Defined.

Lemma lstrip_all_space (l : pystr) : forallb isspace l = true -> lstrip l = [].
Proof.
  induction l as [|c l IH]; cbn; [reflexivity|].
  intros H. apply andb_true_iff in H. destruct H as [-> H]. auto.
Qed.

(** X17: a line of whitespace only (a blank line) is not dropped: the
    reader hands the emitter the empty string for it. *)
Theorem read_output_delivers_blank_line_empty (l : pystr) (s : State) :
  l <> [] ->
  forallb isspace l = true ->
  result (read_output [Line l] s) = Val tt
  /\ emitted Server (trace (read_output [Line l] s)) = [[]].
Proof.
  intros Hl Hsp.
  assert (H : Forall (fun l => l <> []) [l]) by (constructor; auto).
  destruct (read_loop_to_eof (utf8 "[Core Server] ") Server s H) as [Hr Ht].
  unfold read_output. rewrite def_run. cbn [result trace].
  change (read_loop (utf8 "[Core Server] ") Server [Line l] s)
    with (read_loop (utf8 "[Core Server] ") Server (map Line [l]) s).
  rewrite Hr, Ht, emitted_app, emitted_line_events.
  cbn [map emitted app]. unfold strip. rewrite (lstrip_all_space l Hsp). auto.
Qed.

Lemma read_output_delivers_blank_line_witness :
  emitted Server (trace (read_output [Line [32%N; 9%N; 10%N]] init)) = [[]].
Proof.
  apply (@read_output_delivers_blank_line_empty [32%N; 9%N; 10%N] init);
    [discriminate | reflexivity].
Defined.

(** ** get_icon_path *)

(** X18: [get_icon_path] never raises.  When its first directory is known
    ([sys._MEIPASS] in a frozen build, the module's directory otherwise) it
    returns the first existing path among: [assets/icon.ico] under that
    directory, under the module's directory, under the working directory;
    and [None] when none exists.  A frozen build without [sys._MEIPASS]
    returns [None].  Every path it returns exists. *)
Theorem get_icon_path_returns_first_existing (w : World) (env : IconEnv) (s : State) :
  result (get_icon_path w env s)
  = Val (match (if frozen env then MEIPASS env else Some (module_dir env)) with
         | Some d => find (path_exists w) (icon_candidates w env d)
         | None => None
         end)
  /\ (forall p, result (get_icon_path w env s) = Val (Some p) ->
        path_exists w p = true).
Proof.
  assert (H : result (get_icon_path w env s)
              = Val (match (if frozen env then MEIPASS env
                            else Some (module_dir env)) with
                     | Some d => find (path_exists w) (icon_candidates w env d)
                     | None => None
                     end)).
  { destruct s as [sp cp sl cl pm lh pc].
    unfold get_icon_path, try_value, icon_candidates. cbn [first_alt find].
    destruct (frozen env); [destruct (MEIPASS env) as [d|]|].
    - destruct (path_exists w (icon_in w d)) eqn:E1;
        destruct (path_exists w (icon_in w (module_dir env))) eqn:E2;
        destruct (path_exists w (icon_in w (getcwd w))) eqn:E3;
        destruct lh; run; rewrite ?E1, ?E2, ?E3; run; reflexivity.
    - destruct lh; run; reflexivity.
    - destruct (path_exists w (icon_in w (module_dir env))) eqn:E2;
        destruct (path_exists w (icon_in w (getcwd w))) eqn:E3;
        destruct lh; run; rewrite ?E2, ?E3; run; reflexivity. }
  split; [exact H|].
  intros p Hp. rewrite H in Hp.
  destruct (if frozen env then MEIPASS env else Some (module_dir env)) as [d|];
    [|discriminate].
  assert (Hf : find (path_exists w) (icon_candidates w env d) = Some p)
    by congruence.
  apply (find_some _ _ Hf).
Qed.

(** X19: [get_icon_path] is silent when its first choice exists, and never
    fails in silence: whenever it returns [None], its last act is an error
    record that starts with the failure prefix. *)
Theorem get_icon_path_logs_failure (w : World) (env : IconEnv) (s : State) :
  (frozen env = false ->
   path_exists w (icon_in w (module_dir env)) = true ->
   get_icon_path w env s
   = {| result := Val (Some (icon_in w (module_dir env))); final := s; trace := [] |})
  /\ (result (get_icon_path w env s) = Val None ->
      exists m, last (trace (get_icon_path w env s)) EventAccept
                = Log ERROR (utf8 "获取图标路径时出错：" ++ m)).
Proof.
  destruct s as [sp cp sl cl pm lh pc].
  unfold get_icon_path, try_value. cbn [first_alt].
  split.
  - intros Hf He. rewrite Hf. run. rewrite He. run. reflexivity.
  - destruct (frozen env); [destruct (MEIPASS env) as [d|]|].
    + destruct (path_exists w (icon_in w d)) eqn:E1;
        destruct (path_exists w (icon_in w (module_dir env))) eqn:E2;
        destruct (path_exists w (icon_in w (getcwd w))) eqn:E3;
        destruct lh; run; rewrite ?E1, ?E2, ?E3; run;
        intros H; try discriminate H; eexists; reflexivity.
    + destruct lh; run; intros _; eexists; reflexivity.
    + destruct (path_exists w (icon_in w (module_dir env))) eqn:E2;
        destruct (path_exists w (icon_in w (getcwd w))) eqn:E3;
        destruct lh; run; rewrite ?E2, ?E3; run;
        intros H; try discriminate H; eexists; reflexivity.
Qed.

(** ** Dragging the window *)

Lemma wrap32_id (z : Z) : in_int z -> wrap32 z = z.
Proof.
  unfold in_int, wrap32. intros H. rewrite Z.mod_small; lia.
Qed.

Lemma wrap32_sub_wrap32 (a b c : Z) :
  wrap32 (a - wrap32 (b - c)) = wrap32 (c + (a - b)).
Proof.
  unfold wrap32. f_equal.
  replace (a - ((b - c + 2147483648) mod 4294967296 - 2147483648) + 2147483648)%Z
    with ((a + 4294967296) - (b - c + 2147483648) mod 4294967296)%Z by lia.
  rewrite Zminus_mod_idemp_r.
  replace (a + 4294967296 - (b - c + 2147483648))%Z
    with ((c + (a - b) + 2147483648) + 0 * 4294967296)%Z by lia.
  apply Z.mod_add. lia.
Qed.

Lemma moves_dragging (d : QPoint) (events : list QMouseEvent) (win : Window) :
  Forall left_held events ->
  _drag_pos win = Some d ->
  _drag_pos (moves win events) = Some d
  /\ pos (moves win events)
     = match rev events with
       | last_event :: _ => qsub (globalPos last_event) d
       | [] => pos win
       end.
Proof.
  intros H. revert win. unfold moves.
  induction H as [|ev events Hev _ IH]; intros win Hd; [auto|].
  cbn [fold_left rev].
  assert (Hm : fst (mouseMoveEvent win ev)
               = {| pos := qsub (globalPos ev) d; _drag_pos := Some d |}).
  { unfold mouseMoveEvent. unfold left_held in Hev.
    apply Z.eqb_neq in Hev. rewrite Hev, Hd. reflexivity. }
  rewrite Hm.
  destruct (IH {| pos := qsub (globalPos ev) d; _drag_pos := Some d |} eq_refl)
    as [I1 I2].
  split; [exact I1|].
  rewrite I2. cbn [pos]. destruct (rev events); reflexivity.
Qed.

(** X20: dragging keeps the grabbed point under the cursor.  After a
    left-button press and any run of moves with the left button held, the
    window sits where the last cursor position minus the offset taken at
    the press puts it: while the coordinates stay within C [int]s, that is
    the old position shifted by the cursor's displacement since the
    press. *)
Theorem drag_follows_cursor (win : Window) (press last_move : QMouseEvent)
    (events : list QMouseEvent) :
  button press = LeftButton ->
  Forall left_held (events ++ [last_move]) ->
  let win' := moves (fst (mousePressEvent win press)) (events ++ [last_move]) in
  _drag_pos win' = Some (qsub (globalPos press) (pos win))
  /\ pos win' = qsub (globalPos last_move) (qsub (globalPos press) (pos win))
  /\ (in_int (fst (pos win) + (fst (globalPos last_move) - fst (globalPos press))) ->
      in_int (snd (pos win) + (snd (globalPos last_move) - snd (globalPos press))) ->
      pos win'
      = (fst (pos win) + (fst (globalPos last_move) - fst (globalPos press)),
         snd (pos win) + (snd (globalPos last_move) - snd (globalPos press)))%Z).
Proof.
  intros Hb Hheld. cbv zeta.
  assert (Hp : fst (mousePressEvent win press)
               = {| pos := pos win;
                    _drag_pos := Some (qsub (globalPos press) (pos win)) |}).
  { unfold mousePressEvent. rewrite Hb. reflexivity. }
  rewrite Hp.
  destruct (@moves_dragging (qsub (globalPos press) (pos win))
              (events ++ [last_move])
              {| pos := pos win;
                 _drag_pos := Some (qsub (globalPos press) (pos win)) |}
              Hheld eq_refl) as [H1 H2].
  rewrite rev_app_distr in H2. cbn [rev app] in H2.
  split; [exact H1|]. split; [exact H2|].
  intros Hx Hy. rewrite H2. unfold qsub. cbn [fst snd].
  rewrite !wrap32_sub_wrap32, (wrap32_id Hx), (wrap32_id Hy). reflexivity.
Qed.

Lemma drag_follows_cursor_witness :
  pos (moves (fst (mousePressEvent {| pos := (100, 50)%Z; _drag_pos := None |}
                     {| button := 1; buttons := 1; globalPos := (110, 60)%Z |}))
         ([{| button := 0; buttons := 1; globalPos := (130, 65)%Z |}]
          ++ [{| button := 0; buttons := 3; globalPos := (310, 40)%Z |}]))
  = (300, 30)%Z.
Proof.
  apply (@drag_follows_cursor {| pos := (100, 50)%Z; _drag_pos := None |}
           {| button := 1; buttons := 1; globalPos := (110, 60)%Z |}
           {| button := 0; buttons := 3; globalPos := (310, 40)%Z |}
           [{| button := 0; buttons := 1; globalPos := (130, 65)%Z |}]).
  - reflexivity.
  - repeat constructor; discriminate.
  - unfold in_int. cbn. lia.
  - unfold in_int. cbn. lia.
Defined.

Lemma moves_idle (events : list QMouseEvent) (win : Window) :
  _drag_pos win = None -> moves win events = win.
Proof.
  unfold moves. induction events as [|ev events IH]; intros H; [reflexivity|].
  cbn [fold_left].
  assert (Hm : fst (mouseMoveEvent win ev) = win).
  { unfold mouseMoveEvent. rewrite H. destruct (negb _); reflexivity. }
  rewrite Hm. now apply IH.
Qed.

(** X21: without a drag in progress the window does not move.  Moves
    before any left press, and moves after the left button's release, leave
    the position alone, whatever buttons they report; and a press of
    another button starts no drag. *)
Theorem no_drag_no_move (win : Window) (events : list QMouseEvent) :
  (_drag_pos win = None -> moves win events = win)
  /\ (forall release, button release = LeftButton ->
        pos (moves (fst (mouseReleaseEvent win release)) events) = pos win
        /\ _drag_pos (moves (fst (mouseReleaseEvent win release)) events) = None)
  /\ (forall press, button press <> LeftButton ->
        mousePressEvent win press = (win, false)).
Proof.
  split; [apply moves_idle|]. split.
  - intros release Hb. unfold mouseReleaseEvent. rewrite Hb. cbn [Z.eqb Pos.eqb LeftButton fst].
    rewrite moves_idle by reflexivity. auto.
  - intros press Hb. unfold mousePressEvent. apply Z.eqb_neq in Hb. now rewrite Hb.
Qed.

(** ** The shutdown, call by call *)

Lemma terminate_process_control (w : World) (who : Worker) (s : State) (p : Popen) :
  process_of who s = Some p ->
  filter is_control (trace (terminate_process w who s)) = grace_events w who p.
Proof.
  intros Hp. rewrite (terminate_process_present w who s Hp). clear Hp.
  destruct s as [sp cp sl cl pm lh pc]. unfold grace_events.
  destruct (proc_terminate w p) as [[k tx] |].
  - destruct lh; run;
      destruct (is_a TimeoutExpired {| kind := k; text := tx |}); run;
      try (destruct (proc_kill w p); run); reflexivity.
  - destruct (proc_wait5 w p) as [[k tx] |].
    + destruct lh; run;
        destruct (is_a TimeoutExpired {| kind := k; text := tx |}); run;
        try (destruct (proc_kill w p); run); reflexivity.
    + destruct lh; run; reflexivity.
Qed.

Lemma harmless_no_control (t : list Event) :
  Forall harmless t -> filter is_control t = [].
Proof.
  induction 1 as [|e t [He _] _ IH]; [reflexivity|].
  cbn [filter]. now rewrite He.
Qed.

(** The order of the two termination blocks, and what every wait and kill
    of a shutdown obeys. *)
Lemma closeEvent_primary_before_secondary (w : World) (ev : CloseEvent)
    (s : State) (ps pc : Popen) :
  proceeds ev = true ->
  server_process s = Some ps ->
  client_process s = Some pc ->
  result (closeEvent w ev s) = Val tt ->
  first_index (is_terminate Server) (trace (closeEvent w ev s)) = Some 1
  /\ (exists j, first_index (is_terminate Client) (trace (closeEvent w ev s)) = Some j
                /\ 1 < j)
  /\ Forall (bounded_escalation w) (trace (closeEvent w ev s)).
Proof.
  intros Hev Hs Hc Hres.
  split; [|split]; [| |apply (@closeEvent_keeps_handles w ev s Hev)].
  - rewrite (@closeEvent_proceeds w ev s Hev). cbn [trace].
    unfold shutdown_workers.
    destruct (bind_trace_prefix (terminate_process w Server)
                (fun _ => terminate_process w Client ;; close_sweep w ;;
                          event EventAccept)
                (set_process_monitor false s)) as [t ->].
    assert (Hp : process_of Server (set_process_monitor false s) = Some ps)
      by exact Hs.
    destruct (@terminate_process_run w Server _ ps Hp) as [_ [[rest ->] _]].
    reflexivity.
  - rewrite (@closeEvent_proceeds w ev s Hev) in *. cbn [trace result] in *.
    unfold shutdown_workers in *.
    set (s1 := set_process_monitor false s) in *.
    assert (Hp : process_of Server s1 = Some ps) by exact Hs.
    destruct (@terminate_process_run w Server s1 ps Hp)
      as [Hsame [[rest Htr] [Ha [_ [Hr _]]]]].
    destruct Hr as [Hv | [x [k [_ [_ [_ [Hk _]]]]]]].
    + rewrite (bind_val _ _ _ Hv) in *. cbn [trace result] in *.
      set (s2 := final (terminate_process w Server s1)) in *.
      assert (Hp2 : process_of Client s2 = Some pc).
      { destruct Hsame as [_ [H2 _]]. cbn. rewrite H2. exact Hc. }
      destruct (bind_trace_prefix (terminate_process w Client)
                  (fun _ => close_sweep w ;; event EventAccept) s2) as [t ->].
      destruct (@terminate_process_run w Client s2 pc Hp2) as [_ [[rest2 ->] _]].
      exists (S (List.length (trace (terminate_process w Server s1)))).
      split.
      * change (MonitorStop :: trace (terminate_process w Server s1)
                  ++ (Terminate Client pc :: rest2) ++ t)
          with ((MonitorStop :: trace (terminate_process w Server s1))
                  ++ Terminate Client pc :: (rest2 ++ t)).
        rewrite first_index_skip; [reflexivity | | reflexivity].
        constructor; [reflexivity|]. now apply about_server_not_client.
      * rewrite Htr. cbn. lia.
    + exfalso.
      destruct (bind_stop (terminate_process w Server)
                  (fun _ => terminate_process w Client ;; close_sweep w ;;
                            event EventAccept) s1) as [_ [_ [_ [_ Hraise]]]].
      { intros a. rewrite Hk. discriminate. }
      rewrite (Hraise k Hk) in Hres. discriminate.
Qed.


(** C3 (as amended): a [closeEvent] that runs to completion with both
    workers tracked terminates the primary (the server) first and the
    secondary (the client) after it, the order in which they were started.
    The process-control calls of the whole run are exactly the server's
    block followed by the client's, and each block is: [terminate()]; then,
    if that returned, [wait(timeout=5)]; then [kill()] exactly when
    [TimeoutExpired] was raised.  So each termination sends the graceful
    request first, waits at most five seconds, and escalates to the forced
    kill if and only if the wait timed out. *)
Theorem closeEvent_terminates_primary_first (w : World) (ev : CloseEvent)
    (s : State) (ps pc : Popen) :
  proceeds ev = true ->
  server_process s = Some ps ->
  client_process s = Some pc ->
  result (closeEvent w ev s) = Val tt ->
  first_index (is_terminate Server) (trace (closeEvent w ev s)) = Some 1
  /\ (exists j, first_index (is_terminate Client) (trace (closeEvent w ev s)) = Some j
                /\ 1 < j)
  /\ Forall (bounded_escalation w) (trace (closeEvent w ev s))
  /\ filter is_control (trace (closeEvent w ev s))
     = grace_events w Server ps ++ grace_events w Client pc.
Proof.
  intros Hev Hs Hc Hres.
  destruct (@closeEvent_primary_before_secondary w ev s ps pc Hev Hs Hc Hres)
    as [H1 [H2 H3]].
  split; [exact H1|]. split; [exact H2|]. split; [exact H3|].
  rewrite (@closeEvent_proceeds w ev s Hev) in *. cbn [trace result] in *.
  unfold shutdown_workers in *.
  set (s1 := set_process_monitor false s) in *.
  assert (Hp : process_of Server s1 = Some ps) by exact Hs.
  destruct (terminate_process_tame w Server s1) as [[_ [Hc1 _]] _].
  destruct (terminate_process_outcomes w Server s1) as [Hv | [k Hk]].
  - rewrite (bind_val _ _ _ Hv) in *. cbn [trace result] in *.
    set (s2 := final (terminate_process w Server s1)) in *.
    assert (Hp2 : process_of Client s2 = Some pc).
    { cbn [process_of]. rewrite Hc1. exact Hc. }
    destruct (terminate_process_outcomes w Client s2) as [Hv2 | [k Hk]].
    + rewrite (bind_val _ _ _ Hv2). cbn [trace].
      rewrite (bind_val _ _ _ (proj1 (close_sweep_run w _))). cbn [trace event].
      cbn [filter is_control]. rewrite !filter_app.
      rewrite (terminate_process_control w Server s1 Hp),
        (terminate_process_control w Client s2 Hp2).
      rewrite (harmless_no_control (proj1 (proj2 (proj2 (close_sweep_run w _))))).
      cbn [filter is_control app]. now rewrite app_nil_r.
    + exfalso.
      destruct (bind_stop (terminate_process w Client)
                  (fun _ => close_sweep w ;; event EventAccept) s2)
        as [_ [_ [_ [_ Hx]]]]; [rewrite Hk; discriminate|].
      rewrite (Hx k Hk) in Hres. discriminate.
  - exfalso.
    destruct (bind_stop (terminate_process w Server)
                (fun _ => terminate_process w Client ;; close_sweep w ;;
                          event EventAccept) s1) as [_ [_ [_ [_ Hx]]]];
      [rewrite Hk; discriminate|].
    rewrite (Hx k Hk) in Hres. discriminate.
Qed.

Lemma closeEvent_terminates_primary_first_witness :
  filter is_control
    (trace (closeEvent Sample.stubborn_but_killable Sample.close_request
              Sample.both_running))
  = grace_events Sample.stubborn_but_killable Server {| pid := 1 |}
    ++ grace_events Sample.stubborn_but_killable Client {| pid := 2 |}.
Proof.
  apply (@closeEvent_terminates_primary_first Sample.stubborn_but_killable
           Sample.close_request Sample.both_running {| pid := 1 |} {| pid := 2 |});
    reflexivity.
Defined.

(** C7 (as amended): [closeEvent] is safe out of order and safe to
    repeat, but it is not a no-op.  Called while no worker is tracked
    (before [start_core_server] has set [server_process]), it returns
    normally, performs no operation on a worker process, logs no error or
    warning and leaves both handles absent; what it does do is stop the
    timer, request the termination of every process named
    [start_server.exe], and accept the event: its run is [MonitorStop], the
    sweep, [EventAccept], and with no such process on the host the only
    change of state is the stopped timer.  Called again after a first call,
    on workers that are already terminated, it returns normally: nothing is
    raised to the caller. *)
Theorem closeEvent_safe_out_of_order_and_twice (ev : CloseEvent) :
  proceeds ev = true ->
  (forall (w : World) (s : State),
     server_process s = None -> client_process s = None ->
     result (closeEvent w ev s) = Val tt
     /\ trace (closeEvent w ev s)
        = MonitorStop :: trace (close_sweep w (set_process_monitor false s))
                      ++ [EventAccept]
     /\ Forall harmless (trace (closeEvent w ev s))
     /\ ps_terminated (trace (closeEvent w ev s)) = server_pids w
     /\ server_process (final (closeEvent w ev s)) = None
     /\ client_process (final (closeEvent w ev s)) = None
     /\ process_monitor (final (closeEvent w ev s)) = false
     /\ (no_orphans w ->
         trace (closeEvent w ev s) = [MonitorStop; EventAccept]
         /\ final (closeEvent w ev s) = set_process_monitor false s))
  /\ (forall (w1 w2 : World) (s : State),
        (forall who p, process_of who s = Some p -> already_terminated w2 p) ->
        result (closeEvent w2 ev (final (closeEvent w1 ev s))) = Val tt
        /\ server_process (final (closeEvent w2 ev (final (closeEvent w1 ev s))))
           = server_process s
        /\ client_process (final (closeEvent w2 ev (final (closeEvent w1 ev s))))
           = client_process s).
Proof.
  intros Hev. split.
  - intros w s Hs Hc.
    destruct (@closeEvent_keeps_handles w ev s Hev) as [K1 [K2 [K3 _]]].
    rewrite K1, K2, K3.
    rewrite (@closeEvent_proceeds w ev s Hev).
    rewrite (@shutdown_workers_untracked w (set_process_monitor false s) Hs Hc).
    cbn [result trace final].
    destruct (close_sweep_run w (set_process_monitor false s)) as [_ [_ [Hq Hn]]].
    destruct (close_sweep_loop_trace w (process_iter w) (set_process_monitor false s))
      as [Hps _].
    split; [reflexivity|]. split; [reflexivity|]. split.
    { constructor; [split; reflexivity|].
      apply Forall_app. split; [exact Hq|]. repeat constructor. }
    split.
    { cbn [ps_terminated]. rewrite ps_terminated_app. cbv zeta in Hps.
      unfold close_sweep. rewrite Hps. cbn [ps_terminated]. apply app_nil_r. }
    do 3 (split; [assumption || reflexivity|]).
    intros Ho. destruct (Hn Ho) as [-> ->]. auto.
  - intros w1 w2 s Hgone.
    destruct (@closeEvent_keeps_handles w1 ev s Hev) as [K1 [K2 _]].
    destruct (@closeEvent_keeps_handles w2 ev (final (closeEvent w1 ev s)) Hev)
      as [L1 [L2 _]].
    rewrite L1, L2, K1, K2. split; [|auto].
    rewrite (@closeEvent_proceeds w2 ev _ Hev). cbn [result].
    rewrite shutdown_workers_gone; [reflexivity|].
    intros who p Hp. apply (Hgone who). rewrite <- Hp.
    destruct who; cbn; [rewrite K1 | rewrite K2]; reflexivity.
Qed.

Lemma closeEvent_safe_witness :
  result (closeEvent Sample.with_orphans Sample.close_request init) = Val tt
  /\ result (closeEvent Sample.calm Sample.close_request
               (final (closeEvent Sample.calm Sample.close_request
                         Sample.both_running))) = Val tt.
Proof.
  destruct (@closeEvent_safe_out_of_order_and_twice Sample.close_request eq_refl)
    as [Ha Hb].
  split.
  - apply (Ha Sample.with_orphans init); reflexivity.
  - apply (Hb Sample.calm Sample.calm Sample.both_running).
    intros who p _ x Hx. discriminate Hx.
Defined.

(** C7, as stated, fails: [closeEvent] before any worker is started is
    not a no-op.  On a quiet host it changes the state (the timer is
    stopped), and on a host with two stale [start_server.exe] processes it
    requests the termination of both. *)
Lemma closeEvent_before_start_not_noop_counterexample :
  final (closeEvent Sample.calm Sample.close_request init) <> init
  /\ process_monitor init = true
  /\ process_monitor (final (closeEvent Sample.calm Sample.close_request init))
     = false
  /\ trace (closeEvent Sample.calm Sample.close_request init) <> []
  /\ ps_terminated (trace (closeEvent Sample.with_orphans Sample.close_request init))
     = [11%Z; 13%Z].
Proof.
  split; [|split; [|split; [|split]]]; try reflexivity.
  - intros H. apply (f_equal process_monitor) in H. vm_compute in H. discriminate H.
  - vm_compute. discriminate.
Qed.
